(** * ServFlo client-side data-consistency layer

    A shallow embedding of
      - lib/utils/optimizedFetch.ts  (the fetch ledger),
      - lib/utils/errorHandler.ts    (error classification and retry),
      - hooks/useCustomerStage.ts    (the lifecycle stage deriver),
      - store/optimizedJobStore.ts   (the jobs entity store),
    followed by the properties established about them.

    Conventions.
      - A JavaScript object used as a string-keyed table is a [gmap string _]
        holding its own properties.  Indexing an object literal also reaches
        the members it inherits from [Object.prototype]
        ([JS.Object_prototype_names]): the fetch ledger, which is indexed by
        arbitrary strings and written by assignment, models these reads and
        the re-parenting assignment to ["__proto__"]
        ([OptimizedFetch.fetchCache_get]); the backend-code table of the
        error handler is read with the error's code, and a code that names
        an inherited member yields that member
        ([ErrorHandler.supabaseErrorMap_get]).  The status table is read
        with a number, which names no inherited member.
      - [Date.now()] and [navigator.onLine] are readings of the ambient
        runtime; they are explicit arguments or projections of a world.
      - Millisecond timestamps and HTTP statuses are integers ([Z]).
      - [x?.f] on a possibly-absent object is [x ≫= f] in [option]. *)

From Stdlib Require Import ZArith QArith Lia.
From stdpp Require Import base option list strings gmap.

Local Open Scope Z_scope.

(* ===================================================================== *)
(** ** JavaScript string primitives used by the sources                   *)
(* ===================================================================== *)

Module JS.

(** [s.includes(sub)]: [sub] occurs in [s] as a contiguous substring. *)
Fixpoint includes (s sub : string) : bool :=
  String.prefix sub s ||
  match s with
  | EmptyString => false
  | String _ s' => includes s' sub
  end.

(** One character of [toLowerCase()], on the ASCII range: 'A'..'Z' are
    shifted to 'a'..'z', everything else is kept. *)
Definition lower_ascii (c : Ascii.ascii) : Ascii.ascii :=
  let n := Ascii.N_of_ascii c in
  if ((65 <=? n) && (n <=? 90))%N then Ascii.ascii_of_N (n + 32) else c.

Fixpoint toLowerCase (s : string) : string :=
  match s with
  | EmptyString => EmptyString
  | String c s' => String (lower_ascii c) (toLowerCase s')
  end.

(** Truthiness of a possibly-absent string / number. *)
Definition truthy_string (s : option string) : bool :=
  match s with
  | Some s => negb (String.eqb s EmptyString)
  | None => false
  end.

Definition truthy_number (n : option Z) : bool :=
  match n with
  | Some n => negb (n =? 0)
  | None => false
  end.

(** [a === b] on strings. *)
Definition seq (a b : string) : bool := String.eqb a b.

(** The property names of [Object.prototype].  An object literal inherits
    them: [obj[name]] for one of these names is the inherited member (a
    function, or the prototype itself for ["__proto__"]) unless [obj] has an
    own property of that name. *)
Definition Object_prototype_names : list string :=
  ["constructor"; "hasOwnProperty"; "isPrototypeOf"; "propertyIsEnumerable";
   "toLocaleString"; "toString"; "valueOf"; "__proto__";
   "__defineGetter__"; "__defineSetter__";
   "__lookupGetter__"; "__lookupSetter__"].

(** [name in Object.prototype]. *)
Definition inherited (name : string) : bool :=
  existsb (seq name) Object_prototype_names.

End JS.

(* ===================================================================== *)
(** ** lib/utils/optimizedFetch.ts                                        *)
(* ===================================================================== *)

Module OptimizedFetch.

(** The value type of [FetchCache]. *)
Record CacheEntry : Type := mkEntry {
  timestamp : Z;
  inProgress : bool;
}.

(** [FetchCache]: the singleton ledger [const fetchCache = {}], threaded
    explicitly.  The own properties of the object are the entries of the map
    under every key but ["__proto__"].  An assignment
    [fetchCache["__proto__"] = entry] creates no own property: it makes
    [entry] the prototype of the ledger.  The map keeps that prototype under
    the key ["__proto__"]; without such an entry the prototype is
    [Object.prototype]. *)
Abbreviation FetchCache := (gmap string CacheEntry).

Definition PROTO : string := "__proto__".

(** Cache expiry time in milliseconds (5 minutes). *)
Definition CACHE_EXPIRY : Z := 5 * 60 * 1000.

(** The values [fetchCache[dataType]] can have: an entry object, a value
    inherited through the prototype chain that is not an entry (a member of
    [Object.prototype], or a field of the entry the ledger was re-parented
    to) of the given truthiness, or [undefined]. *)
Inductive Indexed : Type :=
| Entry (e : CacheEntry)
| Member (truthy : bool)
| Undefined.

(** [fetchCache[dataType]]: the own property if there is one; under
    ["__proto__"] the prototype; otherwise what the prototype chain
    provides. *)
Definition fetchCache_get (fetchCache : FetchCache) (dataType : string)
    : Indexed :=
  match fetchCache !! dataType with
  | Some e => Entry e
  | None =>
      if JS.seq dataType PROTO then Member true
      else
        match fetchCache !! PROTO with
        | Some p =>
            if JS.seq dataType "timestamp"
            then Member (JS.truthy_number (Some (timestamp p)))
            else if JS.seq dataType "inProgress" then Member (inProgress p)
            else if JS.inherited dataType then Member true
            else Undefined
        | None =>
            if JS.inherited dataType then Member true else Undefined
        end
  end.

(** [cacheEntry?.inProgress], as a condition: only an entry has the field. *)
Definition in_progress (cacheEntry : Indexed) : bool :=
  match cacheEntry with
  | Entry e => inProgress e
  | Member _ | Undefined => false
  end.

(** [!cacheEntry]. *)
Definition falsy (cacheEntry : Indexed) : bool :=
  match cacheEntry with
  | Entry _ => false
  | Member truthy => negb truthy
  | Undefined => true
  end.

(** [now - cacheEntry.timestamp > CACHE_EXPIRY], for a truthy [cacheEntry]:
    on a value without a [timestamp] field the difference is [NaN] and the
    comparison is false. *)
Definition expired (now : Z) (cacheEntry : Indexed) : bool :=
  match cacheEntry with
  | Entry e => now - timestamp e >? CACHE_EXPIRY
  | Member _ | Undefined => false
  end.

(** [delete fetchCache[dataType]]: removes an own property; ["__proto__"]
    never is one. *)
Definition fetchCache_delete (dataType : string) (fetchCache : FetchCache)
    : FetchCache :=
  if JS.seq dataType PROTO then fetchCache else delete dataType fetchCache.

(** [Object.keys(fetchCache)]: the own keys. *)
Definition Object_keys (fetchCache : FetchCache) : list string :=
  filter (fun key => key ≠ PROTO) (map fst (map_to_list fetchCache)).

(** [shouldFetchData(dataType, forceRefresh)], with [now = Date.now()].
    Returns the boolean result and the ledger after the call. *)
Definition shouldFetchData (now : Z) (dataType : string) (forceRefresh : bool)
    (fetchCache : FetchCache) : bool * FetchCache :=
  if forceRefresh then
    (true, <[dataType := mkEntry now true]> fetchCache)
  else
    let cacheEntry := fetchCache_get fetchCache dataType in
    if in_progress cacheEntry then
      (false, fetchCache)
    else if falsy cacheEntry || expired now cacheEntry then
      (true, <[dataType := mkEntry now true]> fetchCache)
    else (false, fetchCache).

(** [markFetchComplete(dataType)], with [now = Date.now()]. *)
Definition markFetchComplete (now : Z) (dataType : string)
    (fetchCache : FetchCache) : FetchCache :=
  <[dataType := mkEntry now false]> fetchCache.

(** [markFetchFailed(dataType)]: [fetchCache[dataType]?.timestamp || 0];
    only an entry has a [timestamp]. *)
Definition markFetchFailed (dataType : string)
    (fetchCache : FetchCache) : FetchCache :=
  let previousTimestamp :=
    match fetchCache_get fetchCache dataType with
    | Entry e => timestamp e
    | Member _ | Undefined => 0
    end in
  <[dataType := mkEntry previousTimestamp false]> fetchCache.

(** [invalidateCache(dataType)]. *)
Definition invalidateCache (dataType : string)
    (fetchCache : FetchCache) : FetchCache :=
  if negb (falsy (fetchCache_get fetchCache dataType))
  then fetchCache_delete dataType fetchCache
  else fetchCache.

(** [invalidateAllCaches()]: delete every own key, one by one. *)
Definition invalidateAllCaches (fetchCache : FetchCache) : FetchCache :=
  foldr (fun key acc => fetchCache_delete key acc) fetchCache
        (Object_keys fetchCache).

(** The names under which an empty or re-parented ledger can hold an
    inherited value: the members of [Object.prototype] and the two field
    names of an entry. *)
Definition inheritable (dataType : string) : bool :=
  JS.inherited dataType || JS.seq dataType "timestamp"
  || JS.seq dataType "inProgress".

(** A run of [shouldFetchData(key)] calls without [forceRefresh], issued at
    the successive clock readings [nows]; returns the answers in order and
    the ledger after the last call. *)
Fixpoint shouldFetchData_seq (nows : list Z) (dataType : string)
    (fetchCache : FetchCache) : list bool * FetchCache :=
  match nows with
  | [] => ([], fetchCache)
  | now :: rest =>
      let '(b, c1) := shouldFetchData now dataType false fetchCache in
      let '(bs, c2) := shouldFetchData_seq rest dataType c1 in
      (b :: bs, c2)
  end.

(** A ledger on which the jobs were fetched successfully at
    [1700000000000]. *)
Definition fetched_ledger : FetchCache :=
  markFetchComplete 1700000000000 "jobs" ∅.

End OptimizedFetch.

(* ===================================================================== *)
(** ** lib/utils/errorHandler.ts                                          *)
(* ===================================================================== *)

Module ErrorHandler.

(** The values an expression of type [ErrorCategory] has at run time: the
    nine members of [enum ErrorCategory], and, because [categorizeError]
    returns [supabaseErrorMap[error.code]] as it finds it, the member of
    [Object.prototype] that the table inherits under the name [name]
    ([INHERITED name]), which is none of the nine. *)
Inductive ErrorCategory : Type :=
| NETWORK | AUTHENTICATION | AUTHORIZATION | VALIDATION | NOT_FOUND
| SERVER | DATABASE | OFFLINE | UNKNOWN
| INHERITED (name : string).

#[export] Instance ErrorCategory_eq_dec : EqDecision ErrorCategory.
Proof. solve_decision. Defined.

(** The properties of a raw failure that the module inspects: [code],
    [status], [message], and whether it is an instance of [TypeError]. *)
Record ErrorObject : Type := mkError {
  code : option string;
  status : option Z;
  message : option string;
  isTypeError : bool;
}.

(** [error: any]: [None] is [null]/[undefined]. *)
Abbreviation any := (option ErrorObject).

(** An opaque handle for the optional [retry] callback of an [AppError]. *)
Inductive RetryFn : Type := retryFn (handle : nat).

(** [interface AppError]. *)
Record AppError : Type := mkAppError {
  app_message : string;
  app_category : ErrorCategory;
  app_code : option string;
  app_originalError : any;
  app_retry : option RetryFn;
  app_suggestions : list string;
}.

(** Maps Supabase error codes to appropriate error categories: the own
    properties of the table. *)
Definition supabaseErrorMap : gmap string ErrorCategory :=
  list_to_map
    [ ("PGRST301", NOT_FOUND); ("PGRST204", VALIDATION);
      ("23505", VALIDATION); ("23503", VALIDATION);
      ("22P02", VALIDATION); ("23502", VALIDATION);
      ("42P01", NOT_FOUND); ("42P02", NOT_FOUND);
      ("42501", AUTHORIZATION); ("42883", SERVER);
      ("57014", SERVER); ("53300", SERVER); ("53100", SERVER) ]%string.

(** [supabaseErrorMap[code]]: the own property if there is one, else the
    member inherited from [Object.prototype] under that name, else
    [undefined].  Every value found is truthy. *)
Definition supabaseErrorMap_get (code : string) : option ErrorCategory :=
  match supabaseErrorMap !! code with
  | Some category => Some category
  | None => if JS.inherited code then Some (INHERITED code) else None
  end.

(** Maps HTTP error status codes to appropriate error categories. *)
Definition httpErrorMap : gmap Z ErrorCategory :=
  list_to_map
    [ (400, VALIDATION); (401, AUTHENTICATION); (403, AUTHORIZATION);
      (404, NOT_FOUND); (409, VALIDATION); (422, VALIDATION);
      (429, SERVER); (500, SERVER); (502, SERVER); (503, SERVER);
      (504, SERVER) ].

(** [error?.message?.includes(sub)]. *)
Definition message_includes (error : any) (sub : string) : bool :=
  default false ((fun m => JS.includes m sub) <$> (error ≫= message)).

(** [categorizeError(error)], with [onLine = navigator.onLine]. *)
Definition categorizeError (onLine : bool) (error : any) : ErrorCategory :=
  if negb onLine then OFFLINE
  else
    match (if JS.truthy_string (error ≫= code)
           then (error ≫= code) ≫= supabaseErrorMap_get
           else None) with
    | Some cat => cat
    | None =>
    match (if JS.truthy_number (error ≫= status)
           then (error ≫= status) ≫= (fun s => httpErrorMap !! s)
           else None) with
    | Some cat => cat
    | None =>
      if message_includes error "auth" || message_includes error "token" ||
         message_includes error "credential" || message_includes error "login"
      then AUTHENTICATION
      else if message_includes error "network" ||
              message_includes error "fetch" ||
              message_includes error "connection" ||
              default false (isTypeError <$> error)
      then NETWORK
      else UNKNOWN
    end
    end.

(** [error?.message || fallback]. *)
Definition message_or (error : any) (fallback : string) : string :=
  if JS.truthy_string (error ≫= message)
  then default fallback (error ≫= message)
  else fallback.

(** [getUserFriendlyMessage(error)]. *)
Definition getUserFriendlyMessage (onLine : bool) (error : any) : string :=
  let category := categorizeError onLine error in
  match category with
  | NETWORK => "Network connection issue. Please check your internet connection and try again."
  | OFFLINE => "You are currently offline. Some features may be unavailable."
  | AUTHENTICATION => "Authentication failed. Please log in again."
  | AUTHORIZATION => "You do not have permission to perform this action."
  | VALIDATION =>
      message_or error "The information provided is invalid. Please check and try again."
  | NOT_FOUND => "The requested information could not be found."
  | SERVER => "The server encountered an error. Please try again later."
  | DATABASE => "There was a database error. Please try again later."
  | UNKNOWN | INHERITED _ =>
      message_or error "An unexpected error occurred. Please try again."
  end%string.

(** [getErrorSuggestions(category)]. *)
Definition getErrorSuggestions (category : ErrorCategory) : list string :=
  match category with
  | NETWORK =>
      [ "Check your internet connection"; "Try refreshing the page";
        "If the problem persists, contact support" ]
  | OFFLINE =>
      [ "Connect to the internet to sync data";
        "You can continue working with limited functionality";
        "Your changes will be saved locally and synced when you reconnect" ]
  | AUTHENTICATION =>
      [ "Try logging in again"; "Clear your browser cache and cookies";
        "Contact support if the problem persists" ]
  | AUTHORIZATION =>
      [ "Check if you have the necessary permissions";
        "Contact your administrator"; "Try logging out and back in" ]
  | VALIDATION =>
      [ "Check the information you provided";
        "Ensure all required fields are filled correctly";
        "Fix any highlighted errors and try again" ]
  | NOT_FOUND =>
      [ "Check if the item was deleted";
        "Try searching with different criteria";
        "Return to the previous page" ]
  | SERVER | DATABASE =>
      [ "Try again in a few minutes"; "Refresh the page";
        "Contact support if the problem persists" ]
  | UNKNOWN | INHERITED _ =>
      [ "Try again"; "Refresh the page";
        "Contact support if the problem persists" ]
  end%string.

(** [createAppError(error, retry?)]. *)
Definition createAppError (onLine : bool) (error : any)
    (retry : option RetryFn) : AppError :=
  let category := categorizeError onLine error in
  {| app_message := getUserFriendlyMessage onLine error;
     app_category := category;
     app_code := error ≫= code;
     app_originalError := error;
     app_retry := retry;
     app_suggestions := getErrorSuggestions category |}.

(** [shouldRetryOperation(error)]. *)
Definition shouldRetryOperation (onLine : bool) (error : any) : bool :=
  let category := categorizeError onLine error in
  bool_decide (category ∈ [NETWORK; SERVER; DATABASE]).

(** The pairs (status, category) of [httpErrorMap], grouped by category. *)
Definition httpErrorMap_graph : list (Z * ErrorCategory) :=
  [ (400, VALIDATION); (409, VALIDATION); (422, VALIDATION);
    (401, AUTHENTICATION); (403, AUTHORIZATION); (404, NOT_FOUND);
    (429, SERVER); (500, SERVER); (502, SERVER); (503, SERVER);
    (504, SERVER) ].

(** [supabaseErrorMap[error.code]] is [undefined]: the [code] of the error,
    if any, is neither a key of the table nor a name the table inherits a
    member under, so the backend-code rule of [categorizeError] does not
    fire. *)
Definition code_unmatched (error : ErrorObject) : Prop :=
  forall c, code error = Some c -> supabaseErrorMap_get c = None.

(** *** The ambient runtime of [withRetry]

    [W] is the state of everything outside the function: the wrapped
    operation's own state, the connectivity of the user agent, the random
    source and whatever else happens while a timer is pending. *)
Class Runtime (W : Type) : Type := {
  navigator_onLine : W -> bool;
  (** [Math.random()]: a number in [0, 1), and the advanced generator. *)
  Math_random : W -> Q * W;
  (** [await new Promise(resolve => setTimeout(resolve, delay))]: the world
      after the timer fired. *)
  setTimeout_wait : Q -> W -> W;
}.

(** How an awaited promise ends: it is fulfilled, it is rejected, or it
    never settles. *)
Inductive Settled (E T : Type) : Type :=
| Fulfilled (v : T)
| Rejected (e : E)
| Pending.
Arguments Fulfilled {E T} v.
Arguments Rejected {E T} e.
Arguments Pending {E T}.

Section WithRetry.
Context {W : Type} (rt : Runtime W) {T : Type}.

(** [operation: () => Promise<T>] acting on the world. *)
Variable operation : W -> Settled any T * W.
Variable maxRetries : Z.
Variable delayMs : Q.

(** The [for] loop of [withRetry]. [attempt] runs from 0 while
    [attempt <= maxRetries] and is only changed by [attempt++], so the
    loop is counted: [remaining] is the number of iterations still
    allowed by the loop condition, [maxRetries + 1 - attempt].
    [remaining = 0] is the exit through the loop condition; the two
    [Rejected (createAppError ..)] results are the [throw] after the
    loop.  Delays are computed exactly (no rounding). *)
Fixpoint withRetry_loop (remaining : nat) (attempt : Z) (lastError : any)
    (w : W) : Settled AppError T * W :=
  match remaining with
  | O => (Rejected (createAppError (navigator_onLine w) lastError None), w)
  | S remaining' =>
      match operation w with
      | (Fulfilled v, w1) => (Fulfilled v, w1)
      | (Pending, w1) => (Pending, w1)
      | (Rejected error, w1) =>
          let lastError := error in
          if negb (shouldRetryOperation (navigator_onLine w1) error)
             || (attempt =? maxRetries)
          then
            (Rejected (createAppError (navigator_onLine w1) lastError None),
             w1)
          else
            let '(r, w2) := Math_random w1 in
            let jitter := (r * (3 # 10) + (85 # 100))%Q in
            let delay := (delayMs * Qpower (3 # 2) attempt * jitter)%Q in
            withRetry_loop remaining' (attempt + 1) lastError
                           (setTimeout_wait delay w2)
      end
  end.

(** [withRetry(operation, maxRetries, delayMs)]. *)
Definition withRetry (w : W) : Settled AppError T * W :=
  withRetry_loop (Z.to_nat (maxRetries + 1)) 0 None w.

End WithRetry.

(** *** Observing the attempts

    A recording wrapper around an operation, in the manner of a test spy:
    each invocation appends the way the call settled, and the world in
    which it settled, to a log carried next to the world. *)
Section Spy.
Context {W : Type} (rt : Runtime W) {T : Type}.

Abbreviation Log := (list (Settled any T * W)).

Definition spy (operation : W -> Settled any T * W)
    : W * Log -> Settled any T * (W * Log) :=
  fun '(w, log) =>
    let '(r, w1) := operation w in
    (r, (w1, log ++ [(r, w1)])).

(** The runtime seen through the wrapper: the log is inert. *)
Definition spy_runtime : Runtime (W * Log) :=
  {| navigator_onLine := fun '(w, _) => navigator_onLine w;
     Math_random := fun '(w, log) =>
       let '(r, w') := Math_random w in (r, (w', log));
     setTimeout_wait := fun d '(w, log) => (setTimeout_wait d w, log) |}.

(** What [withRetry] makes of the way its last attempt settled: a value
    is passed on, a raw error is standardized by [createAppError] in
    the world where the attempt failed. *)
Definition final_settlement (last_attempt : Settled any T * W)
    : Settled AppError T :=
  match last_attempt with
  | (Fulfilled v, _) => Fulfilled v
  | (Rejected e, wl) =>
      Rejected (createAppError (navigator_onLine wl) e None)
  | (Pending, _) => Pending
  end.

(** The operation keeps failing with an error that is retryable in the
    world where it surfaces. *)
Definition always_retryable_failure (operation : W -> Settled any T * W)
    : Prop :=
  forall w, exists e w',
    operation w = (Rejected e, w') /\
    shouldRetryOperation (navigator_onLine w') e = true.

End Spy.

(** A scripted world for concrete runs: the connectivity reading, and the
    outcomes the operation will produce, in order (a run past the end of
    the script never settles). *)
Record Script (T : Type) : Type := mkScript {
  script_onLine : bool;
  script_outcomes : list (Settled any T);
}.
Arguments mkScript {T} _ _.
Arguments script_onLine {T} _.
Arguments script_outcomes {T} _.

Definition script_runtime {T} : Runtime (Script T) :=
  {| navigator_onLine := script_onLine;
     Math_random := fun w => ((1 # 2)%Q, w);
     setTimeout_wait := fun _ w => w |}.

Definition script_operation {T} (w : Script T) : Settled any T * Script T :=
  match script_outcomes w with
  | [] => (Pending, w)
  | o :: rest => (o, mkScript (script_onLine w) rest)
  end.

(** A world that only counts invocations, always online, and an operation
    on it that answers 503 every time. *)
Definition counter_runtime : Runtime nat :=
  {| navigator_onLine := fun _ => true;
     Math_random := fun n => ((1 # 4)%Q, n);
     setTimeout_wait := fun _ n => n |}.

Definition unavailable_operation (n : nat) : Settled any nat * nat :=
  (Rejected (Some (mkError None (Some 503) None false)), S n).

(** A script: a gateway error (retryable), then a validation error, then
    a success. *)
Definition gateway_then_validation : Script nat :=
  mkScript true
    [ Rejected (Some (mkError None (Some 503)
                              (Some "Service Unavailable"%string) false));
      Rejected (Some (mkError (Some "23505"%string) None
                              (Some "duplicate key"%string) false));
      Fulfilled 7%nat ].

End ErrorHandler.

(* ===================================================================== *)
(** ** hooks/useCustomerStage.ts                                          *)
(* ===================================================================== *)

Module CustomerStage.

(** Modelled from the spec: the entity record types of lib/supabase-types
    are not among the sources.  Following the data model (an id, a status
    drawn from a finite set of strings, references by foreign id), the
    records carry exactly the fields that the hook reads. *)
Record Estimate : Type := mkEstimate {
  e_id : string;
  e_customer_id : string;
  e_status : string;
}.

Record Job : Type := mkJob {
  j_id : string;
  j_customer_id : string;
  j_description : string;
  j_status : string;
}.

Record Invoice : Type := mkInvoice {
  i_id : string;
  i_customer_id : string;
  i_job_id : option string;
  i_status : string;
}.

(** The icon components imported from lucide-react. *)
Inductive Icon : Type := FileText | Calendar | Clock | CreditCard.

Inductive StageCategory : Type := estimate | job | invoice.

(** [interface CustomerStage]. *)
Record CustomerStage : Type := mkStage {
  label : string;
  icon : Icon;
  bgColor : string;
  textColor : string;
  category : StageCategory;
}.

#[export] Instance Icon_eq_dec : EqDecision Icon.
Proof. solve_decision. Defined.
#[export] Instance StageCategory_eq_dec : EqDecision StageCategory.
Proof. solve_decision. Defined.
#[export] Instance CustomerStage_eq_dec : EqDecision CustomerStage.
Proof. solve_decision. Defined.

(** The seven stage literals pushed by the hook, in source order. *)
Definition EstimatesQueue : CustomerStage :=
  mkStage "Estimates Queue" FileText EmptyString "text-[#008B37]" estimate.
Definition PendingPayment : CustomerStage :=
  mkStage "Pending Payment" CreditCard EmptyString "text-[#475569]" invoice.
Definition JobScheduled : CustomerStage :=
  mkStage "Job Scheduled" Calendar EmptyString "text-[#f57c00]" job.
Definition ScheduledEstimate : CustomerStage :=
  mkStage "Scheduled Estimate" Calendar EmptyString "text-[#008B37]" estimate.
Definition PendingEstimate : CustomerStage :=
  mkStage "Pending Estimate" Clock EmptyString "text-[#008B37]" estimate.
Definition JobsQueue : CustomerStage :=
  mkStage "Jobs Queue" Calendar EmptyString "text-[#f57c00]" job.
Definition NeedsInvoice : CustomerStage :=
  mkStage "Needs Invoice" FileText EmptyString "text-[#475569]" invoice.

(** [j.description.toLowerCase().includes('estimate visit')]. *)
Definition isEstimateVisit (j : Job) : bool :=
  JS.includes (JS.toLowerCase (j_description j)) "estimate visit".

(** [invoice.job_id === job.id]. *)
Definition invoice_for (j : Job) (i : Invoice) : bool :=
  match i_job_id i with
  | Some jid => JS.seq jid (j_id j)
  | None => false
  end.

Section Hook.
Variable customerId : string.
Variable needsEstimate : bool.
(** The snapshots returned by the three stores. *)
Variable estimates : list Estimate.
Variable jobs : list Job.
Variable invoices : list Invoice.

Definition customerJobs : list Job :=
  List.filter
    (fun j => JS.seq (j_customer_id j) customerId && negb (isEstimateVisit j))
    jobs.

Definition customerInvoices : list Invoice :=
  List.filter (fun i => JS.seq (i_customer_id i) customerId) invoices.

Definition allJobsHaveInvoices : bool :=
  (0 <? length customerJobs)%nat &&
  forallb (fun job => existsb (fun invoice => invoice_for job invoice)
                              customerInvoices)
          customerJobs.

Definition allInvoicesPaid : bool :=
  (0 <? length customerInvoices)%nat &&
  forallb (fun invoice => JS.seq (i_status invoice) "paid"
                          || JS.seq (i_status invoice) "void")
          customerInvoices.

(** The condition of the first [return stages]. *)
Definition completedAllStages : bool :=
  allJobsHaveInvoices && allInvoicesPaid && (0 <? length customerJobs)%nat.

Definition customerEstimates : list Estimate :=
  List.filter (fun e => JS.seq (e_customer_id e) customerId) estimates.

Definition hasRejectedEstimateOnly : bool :=
  (0 <? length customerEstimates)%nat &&
  forallb (fun est => JS.seq (e_status est) "rejected") customerEstimates.

Definition hasPendingPayment : bool :=
  existsb (fun i => JS.seq (i_customer_id i) customerId &&
                    (JS.seq (i_status i) "draft"
                     || JS.seq (i_status i) "overdue"))
          invoices.

Definition hasScheduledJob : bool :=
  existsb (fun j => JS.seq (j_customer_id j) customerId &&
                    negb (isEstimateVisit j) &&
                    (JS.seq (j_status j) "scheduled"
                     || JS.seq (j_status j) "in_progress"))
          jobs.

Definition hasScheduledEstimateVisit : bool :=
  existsb (fun j => JS.seq (j_customer_id j) customerId &&
                    isEstimateVisit j &&
                    (JS.seq (j_status j) "scheduled"
                     || JS.seq (j_status j) "in_progress"))
          jobs.

Definition hasPendingEstimate : bool :=
  existsb (fun e => JS.seq (e_customer_id e) customerId &&
                    JS.seq (e_status e) "pending")
          estimates.

Definition hasApprovedEstimate : bool :=
  existsb (fun e => JS.seq (e_customer_id e) customerId &&
                    JS.seq (e_status e) "approved")
          estimates.

Definition hasCompletedJob : bool :=
  existsb (fun j => JS.seq (j_customer_id j) customerId &&
                    JS.seq (j_status j) "completed" &&
                    negb (isEstimateVisit j) &&
                    negb (existsb (fun i => invoice_for j i) invoices))
          jobs.

(** [stages.push(stage)] guarded by [if (cond)]. *)
Definition push_if (cond : bool) (stage : CustomerStage)
    (stages : list CustomerStage) : list CustomerStage :=
  if cond then stages ++ [stage] else stages.

(** [useCustomerStage(customerId, needsEstimate)]. *)
Definition useCustomerStage : list CustomerStage :=
  let stages := [] in
  if completedAllStages then stages
  else
    let stages := push_if needsEstimate EstimatesQueue stages in
    if hasRejectedEstimateOnly then []
    else
      let stages := push_if hasPendingPayment PendingPayment stages in
      let stages := push_if hasScheduledJob JobScheduled stages in
      let stages :=
        push_if hasScheduledEstimateVisit ScheduledEstimate stages in
      let stages := push_if hasPendingEstimate PendingEstimate stages in
      let stages := push_if hasApprovedEstimate JobsQueue stages in
      let stages := push_if hasCompletedJob NeedsInvoice stages in
      stages.

(** The stages present right before the rejected-only test, i.e. after
    the needs-estimate rule has run. *)
Definition stages_before_rejected_test : list CustomerStage :=
  push_if needsEstimate EstimatesQueue [].

End Hook.

(** The stage literals in the order in which the rules push them. *)
Definition rule_order : list CustomerStage :=
  [ EstimatesQueue; PendingPayment; JobScheduled; ScheduledEstimate;
    PendingEstimate; JobsQueue; NeedsInvoice ].

End CustomerStage.

(* ===================================================================== *)
(** ** store/optimizedJobStore.ts                                         *)
(* ===================================================================== *)

Module JobStore.
Import OptimizedFetch ErrorHandler.

(** What a remote (Supabase) call gives back: the awaited builder either
    throws, or yields the pair [{ data, error }]. *)
Inductive Reply (A : Type) : Type :=
| Threw (e : ErrorObject)
| Replied (data : option A) (error : option ErrorObject).
Arguments Threw {A} e.
Arguments Replied {A} data error.

(** External accesses, recorded in the order they are performed. *)
Inductive Event : Type :=
| NetSelect | NetInsert | NetUpdate | NetDelete
| MirrorLoad | MirrorSave
| SyncQueue
| ConsoleError.

(** How a block of code completes: normally with a value, or by [throw]. *)
Inductive Completion (A : Type) : Type :=
| Normal (a : A)
| Throw (e : ErrorObject).
Arguments Normal {A} a.
Arguments Throw {A} e.

Definition STORE_KEY : string := "jobs".

Section Store.
(** The row type [Job] of lib/supabase-types and its two derived types
    are parameters: [NewJob] is [Omit<Job, 'id' | 'created_at'>] and
    [Patch] is [Partial<Job>]. *)
Context {Job NewJob Patch : Type}.
(** [job.id]. *)
Variable job_id : Job -> string.
(** [{ ...job, ...updates }]. *)
Variable spread : Job -> Patch -> Job.
(** [{ ...j, id, created_at }]. *)
Variable with_id : NewJob -> string -> string -> Job.

(** A queued offline change, [{ type: 'jobs', operation, data }]. *)
Inductive Change : Type :=
| Create (data : Job)
| Update (id : string) (updates : Patch)
| Delete (id : string).

(** The collaborators of the store, acting on an external world [W]. *)
Class Collaborators (W : Type) : Type := {
  onLine : W -> bool;
  Date_now : W -> Z;
  crypto_randomUUID : W -> string * W;
  Date_toISOString : W -> string * W;
  supabase_select : W -> Reply (list Job) * W;
  supabase_insert_many : list NewJob -> W -> Reply (list Job) * W;
  supabase_insert_single : NewJob -> W -> Reply Job * W;
  supabase_update : string -> Patch -> W -> Reply unit * W;
  supabase_delete : string -> W -> Reply unit * W;
  (** [syncManager.queueChange]: [Some e] when the promise rejects. *)
  syncManager_queueChange : Change -> W -> option ErrorObject * W;
  (** Resolves to [{ success, data }]; never rejects. *)
  loadFromIndexedDB : W -> (bool * list Job) * W;
  saveToIndexedDB : list Job -> W -> W;
}.

Context {W : Type} {col : Collaborators W}.

(** [interface JobState], data part. *)
Record JobState : Type := mkState {
  jobs : list Job;
  loading : bool;
  error : option string;
}.

(** Everything a store action can read or change: the zustand state, the
    fetch ledger, the external world, and the record of accesses.  Each
    action is modelled as running to completion without another task
    interleaved at its [await]s. *)
Record App : Type := mkApp {
  state : JobState;
  fetchCache : FetchCache;
  world : W;
  trace : list Event;
}.

Definition M (A : Type) : Type := App -> Completion A * App.

Definition ret {A} (a : A) : M A := fun app => (Normal a, app).
Definition throw {A} (e : ErrorObject) : M A := fun app => (Throw e, app).
Definition bind {A B} (m : M A) (k : A -> M B) : M B :=
  fun app =>
    match m app with
    | (Normal a, app') => k a app'
    | (Throw e, app') => (Throw e, app')
    end.
Definition try_catch {A} (body : M A) (handler : ErrorObject -> M A) : M A :=
  fun app =>
    match body app with
    | (Normal a, app') => (Normal a, app')
    | (Throw e, app') => handler e app'
    end.

Notation "x <- m ;; k" := (bind m (fun x => k))
  (at level 100, m at next level, right associativity).
Notation "m ;;; k" := (bind m (fun _ => k))
  (at level 100, right associativity).

(** [set(partial)] / [set((state) => partial)]. *)
Definition set (f : JobState -> JobState) : M unit :=
  fun app =>
    (Normal tt, mkApp (f (state app)) (fetchCache app) (world app) (trace app)).

(** An access to a collaborator, recorded in the trace. *)
Definition access {A} (ev : Event) (f : W -> A * W) : M A :=
  fun app =>
    let '(a, w') := f (world app) in
    (Normal a, mkApp (state app) (fetchCache app) w' (trace app ++ [ev])).

(** A reading of the runtime that touches no collaborator. *)
Definition reading {A} (f : W -> A) : M A :=
  fun app => (Normal (f (world app)), app).

Definition console_error : M unit :=
  access ConsoleError (fun w => (tt, w)).

(** The ledger operations, on the ledger carried by [App]. *)
Definition shouldFetch (forceRefresh : bool) : M bool :=
  fun app =>
    let '(b, c) := shouldFetchData (Date_now (world app)) STORE_KEY
                                   forceRefresh (fetchCache app) in
    (Normal b, mkApp (state app) c (world app) (trace app)).

Definition on_ledger (f : FetchCache -> FetchCache) : M unit :=
  fun app =>
    (Normal tt, mkApp (state app) (f (fetchCache app)) (world app) (trace app)).

(** [const { data, error } = await ...; if (error) throw error;]. *)
Definition data_or_throw {A} (r : Reply A) : M (option A) :=
  match r with
  | Threw e => throw e
  | Replied _ (Some e) => throw e
  | Replied data None => ret data
  end.

(** [await syncManager.queueChange(change)]. *)
Definition queueChange (c : Change) : M unit :=
  r <- access SyncQueue (syncManager_queueChange c) ;;
  match r with
  | Some e => throw e
  | None => ret tt
  end.

(** [fetchJobs(forceRefresh)]. *)
Definition fetchJobs (forceRefresh : bool) : M unit :=
  go <- shouldFetch forceRefresh ;;
  if negb go then ret tt
  else
    set (fun s => mkState (jobs s) true None) ;;;
    try_catch
      (localData <- access MirrorLoad loadFromIndexedDB ;;
       (if fst localData
        then set (fun s => mkState (snd localData) false (error s))
        else ret tt) ;;;
       r <- access NetSelect supabase_select ;;
       data <- data_or_throw r ;;
       (match data with
        | Some (d :: ds) =>
            access MirrorSave (fun w => (tt, saveToIndexedDB (d :: ds) w))
        | _ => ret tt
        end) ;;;
       set (fun _ => mkState (default [] data) false None) ;;;
       now <- reading Date_now ;;
       on_ledger (markFetchComplete now STORE_KEY))
      (fun _ =>
         console_error ;;;
         localData <- access MirrorLoad loadFromIndexedDB ;;
         (if fst localData
          then set (fun _ => mkState (snd localData) false
            (Some "Using cached job data. Some information may not be up to date."%string))
          else set (fun _ => mkState [] false
            (Some "Unable to load jobs. Please check your connection."%string))) ;;;
         on_ledger (markFetchFailed STORE_KEY)).

(** A use of the runtime that is neither a network nor a mirror access
    (random identifiers, the clock). *)
Definition effect {A} (f : W -> A * W) : M A :=
  fun app =>
    let '(a, w') := f (world app) in
    (Normal a, mkApp (state app) (fetchCache app) w' (trace app)).

(** [{ ...j, id: crypto.randomUUID(), created_at: new Date().toISOString() }]. *)
Definition temp_job (j : NewJob) : M Job :=
  id <- effect crypto_randomUUID ;;
  created_at <- effect Date_toISOString ;;
  ret (with_id j id created_at).

Fixpoint mapM {A B} (f : A -> M B) (l : list A) : M (list B) :=
  match l with
  | [] => ret []
  | a :: l' => b <- f a ;; bs <- mapM f l' ;; ret (b :: bs)
  end.

Fixpoint forM {A} (l : list A) (f : A -> M unit) : M unit :=
  match l with
  | [] => ret tt
  | a :: l' => f a ;;; forM l' f
  end.

(** [addJob(job)]: [job] is one record ([inl]) or an array ([inr]).
    The result [None] is [null]. *)
Definition addJob (job : NewJob + list NewJob) : M (option (list Job)) :=
  set (fun s => mkState (jobs s) true None) ;;;
  try_catch
    (online <- reading onLine ;;
     if negb online then
       tempJobs <-
         match job with
         | inr js =>
             tempJobs <- mapM temp_job js ;;
             forM tempJobs (fun j => queueChange (Create j)) ;;;
             ret tempJobs
         | inl j =>
             tempJob <- temp_job j ;;
             queueChange (Create tempJob) ;;;
             ret [tempJob]
         end ;;
       set (fun s => mkState (tempJobs ++ jobs s) false None) ;;;
       on_ledger (invalidateCache STORE_KEY) ;;;
       ret (Some tempJobs)
     else
       match job with
       | inr js =>
           r <- access NetInsert (supabase_insert_many js) ;;
           data <- data_or_throw r ;;
           set (fun s => mkState (default [] data ++ jobs s) false None) ;;;
           on_ledger (invalidateCache STORE_KEY) ;;;
           ret data
       | inl j =>
           r <- access NetInsert (supabase_insert_single j) ;;
           data <- data_or_throw r ;;
           set (fun s =>
                  mkState (match data with
                           | Some d => d :: jobs s
                           | None => jobs s
                           end) false None) ;;;
           on_ledger (invalidateCache STORE_KEY) ;;;
           ret ((fun d => [d]) <$> data)
       end)
    (fun error =>
       console_error ;;;
       set (fun s => mkState (jobs s) false (message error)) ;;;
       ret None).

(** [state.jobs.map((job) => job.id === id ? { ...job, ...updates } : job)]. *)
Definition patch_jobs (id : string) (updates : Patch) (js : list Job)
    : list Job :=
  map (fun job => if JS.seq (job_id job) id then spread job updates else job)
      js.

(** [state.jobs.filter((job) => job.id !== id)]. *)
Definition drop_job (id : string) (js : list Job) : list Job :=
  List.filter (fun job => negb (JS.seq (job_id job) id)) js.

(** [updateJob(id, updates)]. *)
Definition updateJob (id : string) (updates : Patch) : M unit :=
  set (fun s => mkState (jobs s) true None) ;;;
  try_catch
    (online <- reading onLine ;;
     if negb online then
       queueChange (Update id updates) ;;;
       set (fun s => mkState (patch_jobs id updates (jobs s)) false None) ;;;
       on_ledger (invalidateCache STORE_KEY)
     else
       r <- access NetUpdate (supabase_update id updates) ;;
       data_or_throw r ;;;
       set (fun s => mkState (patch_jobs id updates (jobs s)) false None) ;;;
       on_ledger (invalidateCache STORE_KEY))
    (fun error =>
       console_error ;;;
       set (fun s => mkState (jobs s) false (message error)) ;;;
       throw error).

(** [deleteJob(id)]. *)
Definition deleteJob (id : string) : M unit :=
  set (fun s => mkState (jobs s) true None) ;;;
  try_catch
    (online <- reading onLine ;;
     if negb online then
       queueChange (Delete id) ;;;
       set (fun s => mkState (drop_job id (jobs s)) false None) ;;;
       on_ledger (invalidateCache STORE_KEY)
     else
       r <- access NetDelete (supabase_delete id) ;;
       data_or_throw r ;;;
       set (fun s => mkState (drop_job id (jobs s)) false None) ;;;
       on_ledger (invalidateCache STORE_KEY))
    (fun error =>
       console_error ;;;
       set (fun s => mkState (jobs s) false (message error)) ;;;
       throw error).

(** The remote call of a mutation fails with [e]: the awaited call
    throws [e], or its reply carries the error [e]. *)
Definition fails_with {A} (r : Reply A) (e : ErrorObject) : Prop :=
  match r with
  | Threw e' => e' = e
  | Replied _ (Some e') => e' = e
  | Replied _ None => False
  end.

(** The remote insert issued by [addJob(job)] fails with [e]. *)
Definition insert_fails_with (job : NewJob + list NewJob) (w : W)
    (e : ErrorObject) : Prop :=
  match job with
  | inl j => fails_with (supabase_insert_single j w).1 e
  | inr js => fails_with (supabase_insert_many js w).1 e
  end.

(** What a failed online mutation leaves behind: the collection as it
    was, [loading] reset, the error's message recorded, the ledger as
    it was (no invalidation). *)
Definition failure_recorded (app app' : App) (e : ErrorObject) : Prop :=
  state app' = mkState (jobs (state app)) false (message e) /\
  fetchCache app' = fetchCache app.

End Store.

Arguments JobState : clear implicits.
Arguments App : clear implicits.
Arguments Change : clear implicits.
Arguments Collaborators : clear implicits.

(** *** A small backend for concrete runs

    Rows are the [Job] records of the stage deriver; a new job is a row
    whose id is still to be assigned; a patch replaces the status.  The
    backend is online or not, has a clock, answers every remote call with
    the same error when it has one, and keeps a mirror. *)
Record Backend : Type := mkBackend {
  b_onLine : bool;
  b_now : Z;
  b_remote_error : option ErrorObject;
  b_mirror : list CustomerStage.Job;
}.

Definition backend_reply {A} (data : A) (b : Backend) : Reply A * Backend :=
  match b_remote_error b with
  | Some e => (Replied None (Some e), b)
  | None => (Replied (Some data) None, b)
  end.

Definition row_id : CustomerStage.Job -> string := CustomerStage.j_id.

Definition row_spread (j : CustomerStage.Job) (status : string)
    : CustomerStage.Job :=
  CustomerStage.mkJob (CustomerStage.j_id j) (CustomerStage.j_customer_id j)
                      (CustomerStage.j_description j) status.

Definition row_with_id (j : CustomerStage.Job) (id created_at : string)
    : CustomerStage.Job :=
  CustomerStage.mkJob id (CustomerStage.j_customer_id j)
                      (CustomerStage.j_description j)
                      (CustomerStage.j_status j).

Definition backend_collaborators
    : Collaborators CustomerStage.Job CustomerStage.Job string Backend :=
  {| onLine := b_onLine;
     Date_now := b_now;
     crypto_randomUUID := fun b => ("6f1c2d3e-0000-4000-8000-000000000001"%string, b);
     Date_toISOString := fun b => ("2025-05-09T12:00:00.000Z"%string, b);
     supabase_select := fun b => backend_reply (b_mirror b) b;
     supabase_insert_many := fun js b =>
       backend_reply (map (fun j => row_with_id j "srv" "srv") js) b;
     supabase_insert_single := fun j b =>
       backend_reply (row_with_id j "srv" "srv") b;
     supabase_update := fun _ _ b => backend_reply tt b;
     supabase_delete := fun _ b => backend_reply tt b;
     syncManager_queueChange := fun _ b => (None, b);
     loadFromIndexedDB := fun b => ((true, b_mirror b), b);
     saveToIndexedDB := fun js b =>
       mkBackend (b_onLine b) (b_now b) (b_remote_error b) js |}.

(** A foreign-key violation reported by the database. *)
Definition fk_violation : ErrorObject :=
  mkError (Some "23503"%string) None
          (Some "insert or update on table jobs violates foreign key constraint"%string)
          false.

(** An application whose backend is online and rejects every write, with
    one job in the store and the ledger left by a completed fetch. *)
Definition failing_app : App CustomerStage.Job Backend :=
  mkApp (mkState [CustomerStage.mkJob "j1" "c1" "Replace water heater" "scheduled"]
                 false None)
        fetched_ledger
        (mkBackend true 1700000060000 (Some fk_violation) [])
        [].

(** A backend that is online, rejects every remote call, and holds one job
    in its mirror; nothing has been fetched yet. *)
Definition cold_failing_app : App CustomerStage.Job Backend :=
  mkApp (mkState [] false None) ∅
        (mkBackend true 1700000000000 (Some fk_violation)
           [CustomerStage.mkJob "j1" "c1" "Replace water heater" "scheduled"])
        [].

(** A backend that is online and healthy, with one job on the server and
    in the mirror; nothing has been fetched yet. *)
Definition healthy_app : App CustomerStage.Job Backend :=
  mkApp (mkState [] false None) ∅
        (mkBackend true 1700000000000 None
           [CustomerStage.mkJob "j1" "c1" "Replace water heater" "scheduled"])
        [].

(** The same store as [failing_app], with the runtime offline. *)
Definition offline_app : App CustomerStage.Job Backend :=
  mkApp (mkState [CustomerStage.mkJob "j1" "c1" "Replace water heater" "scheduled"]
                 false None)
        fetched_ledger
        (mkBackend false 1700000060000 None [])
        [].

(** The accesses that go to the remote data store. *)
Definition is_network (ev : Event) : bool :=
  match ev with
  | NetSelect | NetInsert | NetUpdate | NetDelete => true
  | _ => false
  end.

End JobStore.

(* ===================================================================== *)
(** ** components/customers/card/CustomerStage.tsx                        *)
(* ===================================================================== *)

Module StageCard.
Import CustomerStage.

(** [stages.filter(stage => stage.category === c)]. *)
Definition byCategory (c : StageCategory) (stages : list CustomerStage)
    : list CustomerStage :=
  List.filter (fun stage => bool_decide (category stage = c)) stages.

(** The memoised [groupedStages]: the three category groups, flattened in
    category priority. *)
Definition groupedStages (stages : list CustomerStage) : list CustomerStage :=
  byCategory estimate stages ++ byCategory job stages
  ++ byCategory invoice stages.

(** The state updaters of the two pagination buttons, with
    [n = groupedStages.length].  [%] is the remainder that truncates towards
    zero. *)
Definition handlePreviousStage (n prev : Z) : Z := Z.rem (prev - 1 + n) n.
Definition handleNextStage (n prev : Z) : Z := Z.rem (prev + 1) n.

(** What the component returns: [null], the paginated indicator showing
    [groupedStages[currentStageIndex]] with the counter
    [currentStageIndex + 1]/[length], or the single indicator showing
    [groupedStages[0]].  An index outside the array reads [undefined]
    ([None]). *)
Inductive Rendered : Type :=
| RenderNull
| RenderPaged (stage : option CustomerStage) (position total : Z)
| RenderSingle (stage : option CustomerStage).

Definition render (stages : list CustomerStage) (currentStageIndex : Z)
    : Rendered :=
  let grouped := groupedStages stages in
  let len := Z.of_nat (length grouped) in
  if len =? 0 then RenderNull
  else if len >? 1 then
    RenderPaged (if currentStageIndex <? 0 then None
                 else grouped !! Z.to_nat currentStageIndex)
                (currentStageIndex + 1) len
  else RenderSingle (grouped !! 0%nat).

(** The stage literals in the order the card lists them. *)
Definition card_order : list CustomerStage :=
  [ EstimatesQueue; ScheduledEstimate; PendingEstimate;
    JobScheduled; JobsQueue; PendingPayment; NeedsInvoice ].

End StageCard.

(* ===================================================================== *)
(** ** pages/Customers.tsx: the service-flow filter                       *)
(* ===================================================================== *)

Module CustomersPage.
Import CustomerStage.

(** Modelled from the spec: the [Customer] row type of lib/supabase-types is
    not among the sources; the record carries the two fields the filter
    reads. *)
Record Customer : Type := mkCustomer {
  c_id : string;
  c_needs_estimate : bool;
}.

(** [serviceFlows.push(flow)] guarded by [if (cond)]. *)
Definition push_flow (cond : bool) (flow : string) (serviceFlows : list string)
    : list string :=
  if cond then serviceFlows ++ [flow] else serviceFlows.

Section Page.
(** The snapshots of the four stores. *)
Variable customers : list Customer.
Variable estimates : list Estimate.
Variable jobs : list Job.
Variable invoices : list Invoice.

(** [customers.find(c => c.id === customerId)?.needs_estimate], as tested
    by [if (needsEstimate)]. *)
Definition needsEstimate_of (customerId : string) : bool :=
  default false
    (c_needs_estimate <$>
       List.find (fun c => JS.seq (c_id c) customerId) customers).

(** [getCustomerServiceFlow(customerId)].  The thirteen local conditions
    are, expression for expression, those of the hook [useCustomerStage];
    only the order of the pushes and the returned value differ. *)
Definition getCustomerServiceFlow (customerId : string) : string :=
  let serviceFlows := [] in
  let needsEstimate := needsEstimate_of customerId in
  if completedAllStages customerId jobs invoices then "none"
  else
    let serviceFlows := push_flow needsEstimate "needs_estimate" serviceFlows in
    if hasRejectedEstimateOnly customerId estimates then "none"
    else
      let serviceFlows :=
        push_flow (hasPendingPayment customerId invoices)
                  "pending_payment" serviceFlows in
      let serviceFlows :=
        push_flow (hasCompletedJob customerId jobs invoices)
                  "needs_invoice" serviceFlows in
      let serviceFlows :=
        push_flow (hasScheduledJob customerId jobs)
                  "job_scheduled" serviceFlows in
      let serviceFlows :=
        push_flow (hasApprovedEstimate customerId estimates)
                  "needs_scheduling" serviceFlows in
      let serviceFlows :=
        push_flow (hasPendingEstimate customerId estimates)
                  "pending_estimate" serviceFlows in
      let serviceFlows :=
        push_flow (hasScheduledEstimateVisit customerId jobs)
                  "estimate_scheduled" serviceFlows in
      match serviceFlows with
      | [] => "none"
      | first :: _ => first
      end.

(** [isCustomerActive(customerId)]. *)
Definition isCustomerActive (customerId : string) : bool :=
  negb (JS.seq (getCustomerServiceFlow customerId) "none").

End Page.

(** [serviceFlowFilters], as (id, label) pairs; the colours are left out. *)
Definition serviceFlowFilters : list (string * string) :=
  [ ("all", "All Stages");
    ("needs_estimate", "Estimates Queue");
    ("estimate_scheduled", "Scheduled Estimate");
    ("pending_estimate", "Pending Estimate");
    ("needs_scheduling", "Jobs Queue");
    ("job_scheduled", "Job Scheduled");
    ("needs_invoice", "Needs Invoice");
    ("pending_payment", "Pending Payment") ]%string.

(** The label the filter list shows for a service-flow id. *)
Definition filter_label (id : string) : option string :=
  snd <$> List.find (fun f => JS.seq (fst f) id) serviceFlowFilters.

End CustomersPage.

(* ===================================================================== *)
(** * Properties of the fetch ledger                                      *)
(* ===================================================================== *)

Section LedgerFacts.
Import OptimizedFetch.
Implicit Types (c : FetchCache) (k : string) (now : Z).

(** Reading a key that has an entry yields the entry, and only so. *)
Lemma fetchCache_get_own c k e :
  c !! k = Some e -> fetchCache_get c k = Entry e.
Proof. intros Hk. unfold fetchCache_get. by rewrite Hk. Qed.

Lemma fetchCache_get_Entry c k e :
  fetchCache_get c k = Entry e -> c !! k = Some e.
Proof.
  unfold fetchCache_get. destruct (c !! k) as [e'|]; [congruence|].
  destruct (JS.seq k PROTO); [discriminate|].
  destruct (c !! PROTO);
    repeat match goal with
           | |- context [if ?b then _ else _] => destruct b
           end; discriminate.
Qed.

(** Under a name nothing can be inherited by, a read sees the own entry or
    nothing. *)
Lemma fetchCache_get_plain c k :
  inheritable k = false ->
  fetchCache_get c k
  = match c !! k with Some e => Entry e | None => Undefined end.
Proof.
  unfold inheritable, fetchCache_get. intros H.
  apply orb_false_iff in H as [H Hip]. apply orb_false_iff in H as [Hin Hts].
  destruct (c !! k); [done|].
  assert (Hp : JS.seq k PROTO = false).
  { unfold JS.inherited in Hin. cbn [existsb JS.Object_prototype_names] in Hin.
    repeat (apply orb_false_iff in Hin as [? Hin]). done. }
  rewrite Hp, Hts, Hip, Hin. by destruct (c !! PROTO).
Qed.

(** A read depends on the ledger through the entry of the key and the
    prototype only. *)
Lemma fetchCache_get_ext c1 c2 k :
  c1 !! k = c2 !! k -> c1 !! PROTO = c2 !! PROTO ->
  fetchCache_get c1 k = fetchCache_get c2 k.
Proof. intros Hk Hp. unfold fetchCache_get. by rewrite Hk, Hp. Qed.

(** The answer of a check depends on the ledger through the read only. *)
Lemma shouldFetchData_answer_ext now k force c1 c2 :
  fetchCache_get c1 k = fetchCache_get c2 k ->
  (shouldFetchData now k force c1).1 = (shouldFetchData now k force c2).1.
Proof.
  intros H. unfold shouldFetchData. destruct force; [done|]. rewrite H.
  cbv zeta. destruct (in_progress _); [done|]. by destruct (_ || _).
Qed.

(** On a key that has an entry the check reads that entry. *)
Lemma shouldFetchData_own now k c e :
  c !! k = Some e ->
  shouldFetchData now k false c
  = if inProgress e then (false, c)
    else if now - timestamp e >? CACHE_EXPIRY
         then (true, <[k := mkEntry now true]> c) else (false, c).
Proof.
  intros Hk. unfold shouldFetchData.
  by rewrite (fetchCache_get_own c k e Hk).
Qed.

(** On a key without an entry under which nothing is inherited the check
    permits the fetch. *)
Lemma shouldFetchData_absent now k c :
  inheritable k = false -> c !! k = None ->
  shouldFetchData now k false c = (true, <[k := mkEntry now true]> c).
Proof.
  intros Hpl Hk. unfold shouldFetchData.
  by rewrite (fetchCache_get_plain c k Hpl), Hk.
Qed.

(** [markFetchFailed] keeps the stamp of the entry of the key, or writes
    [0] when the key has none. *)
Lemma markFetchFailed_stamp k c :
  markFetchFailed k c
  = <[k := mkEntry (default 0 (timestamp <$> c !! k)) false]> c.
Proof.
  unfold markFetchFailed.
  destruct (c !! k) as [e|] eqn:Hk.
  - by rewrite (fetchCache_get_own c k e Hk).
  - destruct (fetchCache_get c k) as [e| |] eqn:Hg; [|done|done].
    apply fetchCache_get_Entry in Hg. congruence.
Qed.

(** A call without [forceRefresh] that answers [false] writes nothing. *)
Lemma shouldFetchData_false_frame now k c :
  (shouldFetchData now k false c).1 = false ->
  (shouldFetchData now k false c).2 = c.
Proof.
  unfold shouldFetchData.
  destruct (fetchCache_get c k) as [[ts ip]|t|]; simpl; [| |discriminate].
  - destruct ip; simpl; [done|].
    destruct (now - ts >? CACHE_EXPIRY); simpl; [discriminate|done].
  - destruct t; simpl; [done|discriminate].
Qed.

(** A call that answers [true] leaves the key in flight. *)
Lemma shouldFetchData_true_inProgress now k force c :
  (shouldFetchData now k force c).1 = true ->
  (shouldFetchData now k force c).2 = <[k := mkEntry now true]> c.
Proof.
  unfold shouldFetchData. destruct force; [done|].
  destruct (fetchCache_get c k) as [[ts ip]|t|]; simpl; [| |done].
  - destruct ip; simpl; [discriminate|].
    destruct (now - ts >? CACHE_EXPIRY); simpl; [done|discriminate].
  - destruct t; simpl; [discriminate|done].
Qed.

(** While the key is in flight, a call without [forceRefresh] answers
    [false] whatever the clock reads. *)
Lemma shouldFetchData_inProgress now k c e :
  c !! k = Some e -> inProgress e = true ->
  shouldFetchData now k false c = (false, c).
Proof.
  intros Hk Hip. rewrite (shouldFetchData_own now k c e Hk). by rewrite Hip.
Qed.

(** No call touches the entry of another key. *)
Lemma shouldFetchData_other now k k' force c :
  k' ≠ k -> (shouldFetchData now k force c).2 !! k' = c !! k'.
Proof.
  intros Hne.
  destruct (shouldFetchData now k force c).1 eqn:Hb.
  - rewrite (shouldFetchData_true_inProgress _ _ _ _ Hb).
    by rewrite lookup_insert_ne.
  - destruct force; [discriminate Hb|].
    by rewrite (shouldFetchData_false_frame _ _ _ Hb).
Qed.

(** A whole run issued while the key is in flight: all answers are [false]
    and the ledger is the one the run started from. *)
Lemma shouldFetchData_seq_inProgress nows k c e :
  c !! k = Some e -> inProgress e = true ->
  shouldFetchData_seq nows k c = (replicate (length nows) false, c).
Proof.
  intros Hk Hip. induction nows as [|now nows IH]; [done|].
  cbn [shouldFetchData_seq length replicate].
  rewrite (shouldFetchData_inProgress now k c e Hk Hip).
  by rewrite IH.
Qed.

Lemma shouldFetchData_seq_length nows k c :
  length (shouldFetchData_seq nows k c).1 = length nows.
Proof.
  revert c. induction nows as [|now nows IH]; intros c; [done|].
  cbn [shouldFetchData_seq].
  destruct (shouldFetchData now k false c) as [b c1] eqn:E1.
  specialize (IH c1).
  destruct (shouldFetchData_seq nows k c1) as [bs c2]. simpl in *. lia.
Qed.

Lemma shouldFetchData_seq_other nows k k' c :
  k' ≠ k -> (shouldFetchData_seq nows k c).2 !! k' = c !! k'.
Proof.
  intros Hne. revert c. induction nows as [|now nows IH]; intros c; [done|].
  cbn [shouldFetchData_seq].
  pose proof (shouldFetchData_other now k k' false c Hne) as Ho.
  destruct (shouldFetchData now k false c) as [b c1] eqn:E1.
  specialize (IH c1).
  destruct (shouldFetchData_seq nows k c1) as [bs c2]. simpl in *.
  by rewrite IH.
Qed.

(** Once a call of the run has answered [true], every later call of the
    run answers [false]. *)
Lemma shouldFetchData_seq_dedup nows k c i j :
  (shouldFetchData_seq nows k c).1 !! i = Some true ->
  (i < j)%nat -> (j < length nows)%nat ->
  (shouldFetchData_seq nows k c).1 !! j = Some false.
Proof.
  revert c i j. induction nows as [|now nows IH]; intros c i j Hi Hij Hj.
  { simpl in Hj. lia. }
  cbn [shouldFetchData_seq length] in *.
  pose proof (shouldFetchData_true_inProgress now k false c) as Ht.
  destruct (shouldFetchData now k false c) as [b c1] eqn:E1.
  destruct (shouldFetchData_seq nows k c1) as [bs c2] eqn:E2.
  cbn [fst snd] in *.
  destruct j as [|j]; [lia|]. cbn [lookup list_lookup].
  destruct i as [|i]; cbn [lookup list_lookup] in Hi.
  - injection Hi as ->. specialize (Ht eq_refl). subst c1.
    rewrite (shouldFetchData_seq_inProgress nows k _ (mkEntry now true))
      in E2; [|by rewrite lookup_insert_eq|done].
    injection E2 as <- <-. apply lookup_replicate_2. lia.
  - specialize (IH c1 i j). rewrite E2 in IH. cbn [fst] in IH.
    apply IH; [done|lia|lia].
Qed.

(** The documented protocol [shouldFetchData; markFetchFailed] leaves the
    key with the time at which the attempt started: a next check within
    the expiry window of that start is answered [false]. *)
Lemma failed_fetch_is_fresh now now' k c :
  (shouldFetchData now k false c).1 = true ->
  now' - now <= CACHE_EXPIRY ->
  let c1 := markFetchFailed k (shouldFetchData now k false c).2 in
  shouldFetchData now' k false c1 = (false, c1).
Proof.
  intros Ht Hle. rewrite (shouldFetchData_true_inProgress _ _ _ _ Ht).
  cbv zeta. rewrite markFetchFailed_stamp, lookup_insert_eq.
  cbn [fmap option_fmap option_map default timestamp].
  rewrite (shouldFetchData_own now' k _ (mkEntry now false));
    [|by rewrite lookup_insert_eq].
  cbn [inProgress timestamp]. destruct (now' - now >? CACHE_EXPIRY) eqn:E; [|done].
  apply Z.gtb_lt in E. lia.
Qed.

End LedgerFacts.

Section LedgerClaims.
Import OptimizedFetch.

(** C1 (the code at the failing input).  Starting from an empty ledger,
    [shouldFetchData("jobs")] at time [t] permits the fetch and stamps the
    entry with [t]; [markFetchFailed("jobs")] keeps that stamp and clears
    the in-flight flag; the immediately following [shouldFetchData("jobs")],
    at [t] or one second later, answers [false]: the failed attempt is
    treated as fresh data and the retry is suppressed. *)
Theorem C1_retry_suppressed_after_failure :
  let t := 1700000000000 in
  let r1 := shouldFetchData t "jobs" false ∅ in
  let c2 := markFetchFailed "jobs" r1.2 in
  r1.1 = true /\
  c2 !! "jobs" = Some (mkEntry t false) /\
  shouldFetchData t "jobs" false c2 = (false, c2) /\
  shouldFetchData (t + 1000) "jobs" false c2 = (false, c2).
Proof.
  intros t r1 c2.
  assert (H1 : r1.1 = true) by reflexivity.
  split; [exact H1|]. split.
  - subst c2 r1. rewrite (shouldFetchData_true_inProgress _ _ _ _ H1).
    rewrite markFetchFailed_stamp, lookup_insert_eq. simpl.
    by rewrite lookup_insert_eq.
  - split.
    + apply (failed_fetch_is_fresh t t "jobs" ∅ H1). unfold CACHE_EXPIRY. lia.
    + apply (failed_fetch_is_fresh t (t + 1000) "jobs" ∅ H1).
      unfold CACHE_EXPIRY. lia.
Qed.

(** C3 (as stated, refuted).  With a completed fetch on record, two calls
    for "jobs" with nothing in between, one second and four hundred
    seconds after the completion: the first answers [false] (still fresh)
    and the later one answers [true] (expired). *)
Lemma C3_counterexample :
  (shouldFetchData_seq [1700000001000; 1700000400000] "jobs"
                       fetched_ledger).1 = [false; true].
Proof.
  vm_compute. reflexivity.
Qed.

(** C3 (amended).  In every run of [shouldFetchData(key)] calls without
    [forceRefresh] and with nothing else touching the key in between:
    once a call has answered [true], every later call answers [false];
    if the key is in flight when the run starts, every call answers
    [false] and the ledger is unchanged; entries of other keys are never
    touched; and the ledger lists each key at most once. *)
Theorem C3_dedup (key : string) (nows : list Z) (c : FetchCache) :
  let run := shouldFetchData_seq nows key c in
  (forall i j : nat,
      run.1 !! i = Some true -> (i < j)%nat -> (j < length nows)%nat ->
      run.1 !! j = Some false) /\
  (forall e, c !! key = Some e -> inProgress e = true ->
      run = (replicate (length nows) false, c)) /\
  (forall key', key' ≠ key -> run.2 !! key' = c !! key') /\
  NoDup (map_to_list run.2).*1.
Proof.
  intros run. subst run. repeat split.
  - intros i j. apply shouldFetchData_seq_dedup.
  - intros e. apply shouldFetchData_seq_inProgress.
  - intros key'. apply shouldFetchData_seq_other.
  - apply NoDup_fst_map_to_list.
Qed.

(** C3, a concrete run: three mounting consumers ask for "customers" on an
    empty ledger within two milliseconds; only the first may fetch. *)
Lemma C3_dedup_witness :
  (shouldFetchData_seq [1700000000000; 1700000000001; 1700000000002]
                       "customers" ∅).1 = [true; false; false].
Proof.
  pose proof (C3_dedup "customers"
                [1700000000000; 1700000000001; 1700000000002] ∅) as [H _].
  assert (H0 : (shouldFetchData_seq
                  [1700000000000; 1700000000001; 1700000000002]
                  "customers" ∅).1 !! 0%nat = Some true) by reflexivity.
  pose proof (H 0%nat 1%nat H0 ltac:(lia) ltac:(simpl; lia)) as H1.
  pose proof (H 0%nat 2%nat H0 ltac:(lia) ltac:(simpl; lia)) as H2.
  pose proof (shouldFetchData_seq_length
                [1700000000000; 1700000000001; 1700000000002]
                "customers" ∅) as Hl.
  destruct (shouldFetchData_seq _ _ _).1 as [|b0 [|b1 [|b2 [|? ?]]]];
    try discriminate.
  cbn in H0, H1, H2. congruence.
Defined.

End LedgerClaims.

(* ===================================================================== *)
(** * Properties of the error classifier                                  *)
(* ===================================================================== *)

Section ClassifierFacts.
Import ErrorHandler.
Implicit Types (error : ErrorObject) (cat : ErrorCategory).

(** Repeated case analysis on membership in an explicit list. *)
Ltac elem_cases H :=
  repeat (apply elem_of_cons in H as [H|H]); [..|by apply elem_of_nil in H].

(** The values a read of the backend-code table can yield. *)
Lemma supabaseErrorMap_range (c : string) cat :
  supabaseErrorMap_get c = Some cat ->
  cat ∈ [NOT_FOUND; VALIDATION; AUTHORIZATION; SERVER] \/
  (cat = INHERITED c /\ JS.inherited c = true).
Proof.
  unfold supabaseErrorMap_get. intros H.
  destruct (supabaseErrorMap !! c) as [cat'|] eqn:E.
  - injection H as ->. left. apply elem_of_list_to_map_2 in E.
    elem_cases E; injection E as _ ->; set_solver.
  - destruct (JS.inherited c) eqn:Hi; [|discriminate].
    injection H as <-. by right.
Qed.

(** No key of the backend-code table is the name of an inherited member:
    under such a name the table yields the member. *)
Lemma supabaseErrorMap_get_inherited (c : string) :
  JS.inherited c = true -> supabaseErrorMap_get c = Some (INHERITED c).
Proof.
  intros Hi. unfold supabaseErrorMap_get.
  destruct (supabaseErrorMap !! c) as [cat|] eqn:E; [|by rewrite Hi].
  apply elem_of_list_to_map_2 in E.
  elem_cases E; injection E as -> _; vm_compute in Hi; discriminate Hi.
Qed.

Lemma httpErrorMap_lookup (s : Z) cat :
  httpErrorMap !! s = Some cat <-> (s, cat) ∈ httpErrorMap_graph.
Proof.
  split.
  - intros H. apply elem_of_list_to_map_2 in H.
    elem_cases H; injection H as -> ->; unfold httpErrorMap_graph; set_solver.
  - intros H. unfold httpErrorMap_graph in H.
    elem_cases H; injection H as -> ->; reflexivity.
Qed.

Lemma code_rule_silent error :
  code_unmatched error ->
  (if JS.truthy_string (Some error ≫= code)
   then (Some error ≫= code) ≫= supabaseErrorMap_get
   else None) = None.
Proof.
  intros Hc. simpl. destruct (code error) as [c|] eqn:E; simpl; [|done].
  rewrite (Hc c E). by destruct (negb _).
Qed.

(** With the runtime online and no backend code matching, a status found
    in the table decides the category. *)
Lemma categorizeError_status error (s : Z) cat :
  code_unmatched error -> status error = Some s ->
  httpErrorMap !! s = Some cat ->
  categorizeError true (Some error) = cat.
Proof.
  intros Hc Hs Hl. unfold categorizeError. cbn [negb].
  rewrite (code_rule_silent error Hc). cbn [mbind option_bind].
  rewrite Hs. cbn [JS.truthy_number mbind option_bind]. rewrite Hl.
  destruct (s =? 0) eqn:E; [|done].
  apply Z.eqb_eq in E. subst s. discriminate Hl.
Qed.

(** ... and a status outside the table leaves the decision to the message
    rules, as if the error carried no status. *)
Lemma categorizeError_status_unknown error (s : Z) :
  code_unmatched error -> status error = Some s ->
  httpErrorMap !! s = None ->
  categorizeError true (Some error) =
  categorizeError true
    (Some (mkError (code error) None (message error) (isTypeError error))).
Proof.
  intros Hc Hs Hl. unfold categorizeError. cbn [negb].
  rewrite (code_rule_silent error Hc).
  rewrite (code_rule_silent (mkError _ _ _ _) Hc).
  cbn [mbind option_bind]. rewrite Hs.
  cbn [JS.truthy_number mbind option_bind status]. rewrite Hl.
  by destruct (negb (s =? 0)).
Qed.

(** Online, no error is classified [OFFLINE]. *)
Lemma categorizeError_online_not_OFFLINE (e : any) :
  categorizeError true e ≠ OFFLINE.
Proof.
  unfold categorizeError. cbn [negb].
  destruct (if JS.truthy_string (e ≫= code) then _ else None)
    as [cat|] eqn:E1.
  { destruct (JS.truthy_string (e ≫= code)); [|discriminate].
    destruct (e ≫= code) as [c|]; [|discriminate]. simpl in E1.
    apply supabaseErrorMap_range in E1 as [E1|[E1 _]]; intros ->;
      [elem_cases E1; discriminate|discriminate]. }
  destruct (if JS.truthy_number (e ≫= status) then _ else None)
    as [cat|] eqn:E2.
  { destruct (JS.truthy_number (e ≫= status)); [|discriminate].
    destruct (e ≫= status) as [s|]; [|discriminate]. simpl in E2.
    apply httpErrorMap_lookup in E2. intros ->.
    unfold httpErrorMap_graph in E2. elem_cases E2; discriminate. }
  destruct (_ || _ || _ || _); [discriminate|].
  destruct (_ || _ || _ || _); discriminate.
Qed.

End ClassifierFacts.

Section ClassifierClaims.
Import ErrorHandler.

(** Membership of a listed element in an explicit list. *)
Ltac listed :=
  solve [repeat first [apply list_elem_of_here | apply list_elem_of_further]].

(** C6 (as stated, refuted).  Online, an error with status 501 and no
    backend code is not classified [SERVER]: 501 is not a key of
    [httpErrorMap], and the message rules give [UNKNOWN]. *)
Lemma C6_counterexample :
  let error := mkError None (Some 501) (Some "Not Implemented"%string) false in
  code_unmatched error /\
  categorizeError true (Some error) = UNKNOWN /\
  categorizeError true (Some error) <> SERVER.
Proof.
  intros error. split; [intros c Hc; discriminate Hc|].
  split; [vm_compute; reflexivity|vm_compute; discriminate].
Qed.

(** C6 (amended).  For an error carrying a status, with the runtime online
    and the read of the backend-code table under the error's code yielding
    nothing (the code is neither a key of the table nor the name of a
    member the table inherits): 400, 409 and 422 classify as validation,
    401 as authentication, 403 as authorization, 404 as not_found, and
    429, 500, 502, 503 and 504 as server.  Any other 5xx status is absent
    from the table: the classification is then the one the message rules
    give to the same error without its status. *)
Theorem C6_status_mapping (error : ErrorObject) (s : Z) :
  status error = Some s ->
  code_unmatched error ->
  (s ∈ [400; 409; 422] -> categorizeError true (Some error) = VALIDATION) /\
  (s = 401 -> categorizeError true (Some error) = AUTHENTICATION) /\
  (s = 403 -> categorizeError true (Some error) = AUTHORIZATION) /\
  (s = 404 -> categorizeError true (Some error) = NOT_FOUND) /\
  (s ∈ [429; 500; 502; 503; 504] ->
     categorizeError true (Some error) = SERVER) /\
  (500 <= s <= 599 -> s ∉ [500; 502; 503; 504] ->
     categorizeError true (Some error) =
     categorizeError true
       (Some (mkError (code error) None (message error) (isTypeError error)))).
Proof.
  intros Hs Hc.
  assert (Hin : forall cat, (s, cat) ∈ httpErrorMap_graph ->
                            categorizeError true (Some error) = cat).
  { intros cat Hg. apply (categorizeError_status error s cat Hc Hs).
    by apply httpErrorMap_lookup. }
  repeat split.
  - intros H. apply Hin. unfold httpErrorMap_graph.
    repeat (apply elem_of_cons in H as [->|H]); [listed..|].
    by apply elem_of_nil in H.
  - intros ->. apply Hin. unfold httpErrorMap_graph. listed.
  - intros ->. apply Hin. unfold httpErrorMap_graph. listed.
  - intros ->. apply Hin. unfold httpErrorMap_graph. listed.
  - intros H. apply Hin. unfold httpErrorMap_graph.
    repeat (apply elem_of_cons in H as [->|H]); [listed..|].
    by apply elem_of_nil in H.
  - intros Hr Hn. apply (categorizeError_status_unknown error s Hc Hs).
    destruct (httpErrorMap !! s) as [cat|] eqn:E; [|done].
    apply httpErrorMap_lookup in E. unfold httpErrorMap_graph in E.
    exfalso. apply Hn.
    repeat (apply elem_of_cons in E as [E|E]);
      try (injection E as -> _; first [lia | listed]).
    by apply elem_of_nil in E.
Qed.

(** The proviso on the code is needed: "constructor" is no key of the
    backend-code table, yet a 503 carrying that code is given the inherited
    member, not [SERVER], and is not retried. *)
Lemma code_rule_inherited_member :
  let error := Some (mkError (Some "constructor"%string) (Some 503) None false) in
  supabaseErrorMap !! "constructor"%string = None /\
  categorizeError true error = INHERITED "constructor" /\
  shouldRetryOperation true error = false.
Proof. repeat split; vm_compute; reflexivity. Qed.

(** C6, a concrete reading: a 503 from the gateway, runtime online. *)
Lemma C6_status_mapping_witness :
  categorizeError true
    (Some (mkError None (Some 503) (Some "Service Unavailable"%string) false))
  = SERVER.
Proof.
  refine (proj1 (proj2 (proj2 (proj2 (proj2
    (C6_status_mapping
       (mkError None (Some 503) (Some "Service Unavailable"%string) false)
       503 eq_refl _))))) _).
  - intros c Hc. discriminate Hc.
  - listed.
Defined.

(** C7 (as stated, refuted).  The same error value is classified
    [NOT_FOUND] when [navigator.onLine] reads [true] and [OFFLINE] when it
    reads [false]: the category depends on ambient state. *)
Lemma C7_counterexample :
  let error := Some (mkError None (Some 404) (Some "Not Found"%string) false) in
  categorizeError true error = NOT_FOUND /\
  categorizeError false error = OFFLINE /\
  categorizeError true error <> categorizeError false error.
Proof.
  intros error. split; [vm_compute; reflexivity|].
  split; [vm_compute; reflexivity|vm_compute; discriminate].
Qed.

(** C7 (amended).  Classification is a function of the error argument and
    of the runtime's connectivity reading, and of nothing else in the
    ambient world: two invocations on the same error in worlds with the
    same reading yield the same category.  The reading is decisive exactly
    for [OFFLINE]: an error is classified [OFFLINE] if and only if the
    runtime reports no connectivity. *)
Theorem C7_classification_inputs {W : Type} (rt : Runtime W) (w1 w2 : W)
    (error : any) :
  (navigator_onLine w1 = navigator_onLine w2 ->
   categorizeError (navigator_onLine w1) error =
   categorizeError (navigator_onLine w2) error) /\
  (categorizeError (navigator_onLine w1) error = OFFLINE <->
   navigator_onLine w1 = false).
Proof.
  split; [by intros ->|].
  destruct (navigator_onLine w1).
  - split; [|discriminate].
    intros H. by apply categorizeError_online_not_OFFLINE in H.
  - done.
Qed.

(** C7, a concrete reading: two scripted worlds that differ in what the
    operation will do next but agree on connectivity classify alike. *)
Lemma C7_classification_inputs_witness :
  let error := Some (mkError (Some "23505"%string) None None false) in
  categorizeError
    (navigator_onLine (Runtime := script_runtime (T := nat))
       (mkScript true [Fulfilled 1%nat])) error =
  categorizeError
    (navigator_onLine (Runtime := script_runtime (T := nat))
       (mkScript true [Pending])) error.
Proof.
  intros error.
  exact (proj1 (C7_classification_inputs (script_runtime (T := nat))
                  (mkScript true [Fulfilled 1%nat])
                  (mkScript true [Pending]) error) eq_refl).
Defined.

End ClassifierClaims.

(* ===================================================================== *)
(** * Properties of the retry wrapper                                     *)
(* ===================================================================== *)

Section RetryFacts.
Import ErrorHandler.
Context {W : Type} (rt : Runtime W) {T : Type}.
Variable operation : W -> Settled any T * W.
Variable maxRetries : Z.
Variable delayMs : Q.

(** The loop, observed through the recording wrapper.  Entered with at
    least one iteration left, it appends to the log between one and
    [remaining] attempts; every attempt but the last was rejected with a
    retryable error; the result is what the last attempt determines. *)
Lemma withRetry_loop_spy (remaining : nat) (attempt : Z) (lastError : any)
    (w : W) (log : list (Settled any T * W)) :
  (1 <= remaining)%nat ->
  Z.of_nat remaining = maxRetries + 1 - attempt ->
  exists ext o wl,
    withRetry_loop (spy_runtime rt) (spy operation) maxRetries delayMs
                   remaining attempt lastError (w, log)
    = (final_settlement rt (o, wl), (wl, log ++ ext)) /\
    last ext = Some (o, wl) /\
    (length ext <= remaining)%nat /\
    (forall (i : nat) o' wi,
        ext !! i = Some (o', wi) -> (S i < length ext)%nat ->
        exists e, o' = Rejected e /\
                  shouldRetryOperation (navigator_onLine wi) e = true).
Proof.
  revert attempt lastError w log.
  induction remaining as [|r IH]; intros attempt lastError w log Hpos Hinv;
    [lia|].
  cbn [withRetry_loop]. cbn [spy].
  destruct (operation w) as [o w1] eqn:Eop.
  destruct o as [v|e|].
  - exists [(Fulfilled v, w1)], (Fulfilled v), w1. cbn.
    repeat split; [lia|]. intros i o' wi _ Hi. lia.
  - cbn [navigator_onLine spy_runtime].
    destruct (negb (shouldRetryOperation (navigator_onLine w1) e)
              || (attempt =? maxRetries)) eqn:Estop.
    + exists [(Rejected e, w1)], (Rejected e), w1. cbn.
      repeat split; [lia|]. intros i o' wi _ Hi. lia.
    + apply orb_false_elim in Estop as [Hretry Hne].
      apply negb_false_iff in Hretry. apply Z.eqb_neq in Hne.
      cbn [Math_random spy_runtime].
      destruct (Math_random w1) as [r0 w2] eqn:Ernd.
      cbn [setTimeout_wait spy_runtime].
      edestruct (IH (attempt + 1) e) as (ext & o & wl & Hrun & Hlast & Hlen & Hchain);
        [lia|lia|].
      exists ((Rejected e, w1) :: ext), o, wl.
      split; [rewrite Hrun; by rewrite <- app_assoc|].
      split; [by rewrite last_cons, Hlast|].
      split; [cbn [length]; lia|].
      intros [|i] o' wi Hi Hlt.
      * injection Hi as <- <-. by exists e.
      * apply (Hchain i o' wi Hi). cbn [length] in Hlt. lia.
  - exists [(Pending, w1)], Pending, w1. cbn.
    repeat split; [lia|]. intros i o' wi _ Hi. lia.
Qed.

(** Recording changes nothing: forgetting the log of a recorded run gives
    the run of the bare operation. *)
Lemma withRetry_loop_erase (remaining : nat) (attempt : Z) (lastError : any)
    (w : W) (log : list (Settled any T * W)) :
  let run := withRetry_loop (spy_runtime rt) (spy operation) maxRetries
                            delayMs remaining attempt lastError (w, log) in
  withRetry_loop rt operation maxRetries delayMs remaining attempt lastError w
  = (run.1, run.2.1).
Proof.
  revert attempt lastError w log.
  induction remaining as [|r IH]; intros attempt lastError w log; [done|].
  cbn [withRetry_loop spy navigator_onLine Math_random setTimeout_wait
       spy_runtime].
  destruct (operation w) as [[v|e|] w1]; [done| |done].
  cbn [navigator_onLine spy_runtime].
  destruct (negb _ || _); [done|].
  cbn [Math_random spy_runtime].
  destruct (Math_random w1) as [r0 w2].
  cbn [setTimeout_wait spy_runtime]. apply IH.
Qed.

End RetryFacts.

Section RetryClaims.
Import ErrorHandler.

(** C2.  For every operation, every world and every [maxRetries >= 0],
    the recorded run of [withRetry] shows: at most [maxRetries + 1]
    invocations of the operation; a rejection classified outside
    {network, server, database} (validation and authentication among
    them) is the last invocation of the run; the run has a last
    invocation, and when that invocation was rejected with the raw error
    [e] the run is rejected with [createAppError e] (when it was fulfilled
    the run is fulfilled with its value); conversely a rejected run
    carries [createAppError] of the raw error of the last invocation.  The
    recorded run and the bare run agree on result and world. *)
Theorem C2_retry_bound {W : Type} (rt : Runtime W) {T : Type}
    (operation : W -> Settled any T * W) (maxRetries : Z) (delayMs : Q)
    (w : W) :
  0 <= maxRetries ->
  let run := withRetry (spy_runtime rt) (spy operation) maxRetries delayMs
                       (w, []) in
  let log := run.2.2 in
  Z.of_nat (length log) <= maxRetries + 1 /\
  (forall (i : nat) e wi,
      log !! i = Some (Rejected e, wi) ->
      categorizeError (navigator_onLine wi) e ∉ [NETWORK; SERVER; DATABASE] ->
      length log = S i) /\
  (forall (i : nat) e wi,
      log !! i = Some (Rejected e, wi) ->
      categorizeError (navigator_onLine wi) e = VALIDATION \/
      categorizeError (navigator_onLine wi) e = AUTHENTICATION ->
      length log = S i) /\
  (exists o wl, last log = Some (o, wl) /\
      match o with
      | Rejected e =>
          run.1 = Rejected (createAppError (navigator_onLine wl) e None)
      | Fulfilled v => run.1 = Fulfilled v
      | Pending => run.1 = Pending
      end) /\
  (forall ae, run.1 = Rejected ae ->
      exists e wl, last log = Some (Rejected e, wl) /\
                   ae = createAppError (navigator_onLine wl) e None) /\
  withRetry rt operation maxRetries delayMs w = (run.1, run.2.1).
Proof.
  intros Hmax run log.
  destruct (withRetry_loop_spy rt operation maxRetries delayMs
              (Z.to_nat (maxRetries + 1)) 0 None w [])
    as (ext & o & wl & Hrun & Hlast & Hlen & Hchain); [lia|lia|].
  assert (Hlog : log = ext).
  { subst log run. unfold withRetry. by rewrite Hrun. }
  assert (Hres : run.1 = final_settlement rt (o, wl)).
  { subst run. unfold withRetry. by rewrite Hrun. }
  assert (Hstop : forall (i : nat) e wi,
             log !! i = Some (Rejected e, wi) ->
             shouldRetryOperation (navigator_onLine wi) e = false ->
             length log = S i).
  { intros i e wi Hi Hno. rewrite Hlog in *.
    pose proof (lookup_lt_Some _ _ _ Hi) as Hlt.
    destruct (decide (S i < length ext)%nat) as [Hmore|]; [|lia].
    destruct (Hchain i _ _ Hi Hmore) as (e' & He' & Hyes).
    injection He' as <-. congruence. }
  split; [rewrite Hlog; lia|]. split; [|split; [|split; [|split]]].
  - intros i e wi Hi Hcat. apply (Hstop i e wi Hi).
    unfold shouldRetryOperation. by apply bool_decide_eq_false.
  - intros i e wi Hi Hcat. apply (Hstop i e wi Hi).
    unfold shouldRetryOperation. apply bool_decide_eq_false.
    destruct Hcat as [-> | ->]; intros Hin;
      repeat (apply elem_of_cons in Hin as [Hin|Hin]; [discriminate|]);
      by apply elem_of_nil in Hin.
  - exists o, wl. rewrite Hlog. split; [done|].
    rewrite Hres. by destruct o.
  - intros ae Hae. rewrite Hres in Hae. rewrite Hlog.
    destruct o as [v|e|]; [discriminate| |discriminate].
    exists e, wl. split; [done|]. cbn in Hae. by injection Hae as <-.
  - unfold withRetry.
    apply (withRetry_loop_erase rt operation maxRetries delayMs).
Qed.

(** C2, a concrete run with [maxRetries = 3]: two invocations, the second
    rejected with a validation error, and the run is rejected with the
    standardized error built from it. *)
Lemma C2_retry_bound_witness :
  let run := withRetry (spy_runtime script_runtime) (spy script_operation)
                       3 1000 (gateway_then_validation, []) in
  let duplicate := Some (mkError (Some "23505"%string) None
                                 (Some "duplicate key"%string) false) in
  length run.2.2 = 2%nat /\
  Z.of_nat (length run.2.2) <= 3 + 1 /\
  run.1 = Rejected (createAppError true duplicate None) /\
  categorizeError true duplicate = VALIDATION.
Proof.
  intros run duplicate.
  pose proof (C2_retry_bound script_runtime script_operation 3 1000
                gateway_then_validation ltac:(lia))
    as (Hbound & _ & _ & (o & wl & Hlast & Hsettled) & _).
  split; [reflexivity|]. split; [exact Hbound|].
  change (last (withRetry (spy_runtime script_runtime) (spy script_operation)
                          3 1000 (gateway_then_validation, [])).2.2
          = Some (o, wl)) in Hlast.
  vm_compute in Hlast. injection Hlast as <- <-.
  split; [exact Hsettled|reflexivity].
Defined.

End RetryClaims.

(* ===================================================================== *)
(** * Properties of the lifecycle stage deriver                           *)
(* ===================================================================== *)

Section StageFacts.
Import CustomerStage.

Lemma seq_true (a b : string) : JS.seq a b = true <-> a = b.
Proof. apply String.eqb_eq. Qed.

(** A [some] whose predicate implies [p] only looks at the [p]-filtered
    part of the collection. *)
Lemma existsb_restrict {A} (p f : A -> bool) (l : list A) :
  (forall x, f x = true -> p x = true) ->
  existsb f l = existsb f (List.filter p l).
Proof.
  intros Himp. induction l as [|x l IH]; [done|].
  cbn [existsb List.filter]. destruct (p x) eqn:Ep.
  - cbn [existsb]. by rewrite IH.
  - destruct (f x) eqn:Ef; [|done].
    apply Himp in Ef. congruence.
Qed.

(** Likewise for a [filter]. *)
Lemma filter_restrict {A} (p f : A -> bool) (l : list A) :
  (forall x, f x = true -> p x = true) ->
  List.filter f l = List.filter f (List.filter p l).
Proof.
  intros Himp. induction l as [|x l IH]; [done|].
  cbn [List.filter]. destruct (p x) eqn:Ep.
  - cbn [List.filter]. destruct (f x); by rewrite IH.
  - destruct (f x) eqn:Ef; [|done].
    apply Himp in Ef. congruence.
Qed.

Lemma filter_none {A} (f : A -> bool) (l : list A) :
  (forall x, In x l -> f x = false) -> List.filter f l = [].
Proof.
  intros H. induction l as [|x l IH]; [done|].
  cbn [List.filter]. rewrite (H x (or_introl eq_refl)).
  apply IH. intros y Hy. apply H. by right.
Qed.

Lemma forallb_Forall {A} (f : A -> bool) (l : list A) :
  Forall (fun x => f x = true) l -> forallb f l = true.
Proof.
  induction 1 as [|x l Hx _ IH]; [done|].
  cbn [forallb]. by rewrite Hx, IH.
Qed.

(** The rejected-only test succeeds when the customer has estimates and
    all of them are rejected. *)
Lemma hasRejectedEstimateOnly_true customerId estimates :
  customerEstimates customerId estimates <> [] ->
  Forall (fun est => e_status est = "rejected"%string)
         (customerEstimates customerId estimates) ->
  hasRejectedEstimateOnly customerId estimates = true.
Proof.
  intros Hne Hall. unfold hasRejectedEstimateOnly.
  destruct (customerEstimates customerId estimates) as [|e l] eqn:E; [done|].
  cbn [length Nat.ltb Nat.leb andb].
  apply forallb_Forall. eapply Forall_impl; [exact Hall|].
  intros est Hs. by apply seq_true.
Qed.

(** A customer without a job that is not an estimate visit is never taken
    by the completion exit. *)
Lemma completedAllStages_needs_job customerId jobs invoices :
  customerJobs customerId jobs = [] ->
  completedAllStages customerId jobs invoices = false.
Proof.
  intros H. unfold completedAllStages, allJobsHaveInvoices. by rewrite H.
Qed.

(** Whatever the rules decide, the pushes happen in rule order. *)
Lemma pushes_in_rule_order (b1 b2 b3 b4 b5 b6 b7 : bool) :
  push_if b7 NeedsInvoice
    (push_if b6 JobsQueue
      (push_if b5 PendingEstimate
        (push_if b4 ScheduledEstimate
          (push_if b3 JobScheduled
            (push_if b2 PendingPayment
              (push_if b1 EstimatesQueue []))))))
  `sublist_of` rule_order.
Proof.
  unfold rule_order.
  destruct b1, b2, b3, b4, b5, b6, b7; cbn [push_if app];
    repeat first [ apply sublist_nil | apply sublist_skip
                 | apply sublist_cons ].
Qed.

(** After the needs-estimate rule has pushed, the first stage stays. *)
Lemma pushes_keep_head (s : CustomerStage) (b2 b3 b4 b5 b6 b7 : bool) :
  exists rest,
    push_if b7 NeedsInvoice
      (push_if b6 JobsQueue
        (push_if b5 PendingEstimate
          (push_if b4 ScheduledEstimate
            (push_if b3 JobScheduled
              (push_if b2 PendingPayment [s]))))) = s :: rest.
Proof.
  destruct b2, b3, b4, b5, b6, b7; cbn [push_if app]; eexists; reflexivity.
Qed.

End StageFacts.

Section StageClaims.
Import CustomerStage.

(** C4.  When the customer has at least one estimate and every estimate of
    the customer is rejected, the derivation returns the empty sequence,
    whatever [needsEstimate] is and whatever jobs and invoices exist
    (whether or not the completion exit applies); a stage pushed by the
    needs-estimate rule is discarded. *)
Theorem C4_rejected_only (customerId : string) (needsEstimate : bool)
    (estimates : list Estimate) (jobs : list Job) (invoices : list Invoice) :
  customerEstimates customerId estimates <> [] ->
  Forall (fun est => e_status est = "rejected"%string)
         (customerEstimates customerId estimates) ->
  useCustomerStage customerId needsEstimate estimates jobs invoices = [] /\
  stages_before_rejected_test true = [EstimatesQueue].
Proof.
  intros Hne Hall. split; [|reflexivity].
  unfold useCustomerStage.
  destruct (completedAllStages customerId jobs invoices); [done|].
  by rewrite (hasRejectedEstimateOnly_true customerId estimates Hne Hall).
Qed.

(** C4, the instance of the testable properties: [needsEstimate = true],
    a single rejected estimate, no other entities.  The completion exit
    does not apply, Estimates Queue had been pushed, the result is empty. *)
Lemma C4_rejected_only_witness :
  let estimates := [mkEstimate "e1" "c1" "rejected"] in
  completedAllStages "c1" [] [] = false /\
  stages_before_rejected_test true = [EstimatesQueue] /\
  useCustomerStage "c1" true estimates [] [] = [].
Proof.
  intros estimates.
  assert (Hne : customerEstimates "c1" estimates <> []) by discriminate.
  assert (Hall : Forall (fun est => e_status est = "rejected"%string)
                        (customerEstimates "c1" estimates)).
  { repeat constructor. }
  destruct (C4_rejected_only "c1" true estimates [] [] Hne Hall) as [H1 H2].
  split; [reflexivity|]. split; [exact H2|exact H1].
Defined.

(** C5.  If, for one customer, the snapshots hold exactly one estimate,
    pending, exactly one job, scheduled and not an estimate visit, and no
    invoice, then with [needsEstimate = false] the derivation returns
    exactly [[Job Scheduled; Pending Estimate]].  For all inputs the
    result lists stages in rule order (it is a subsequence of the seven
    stage literals in the order the rules push them), and equal inputs
    give equal results. *)
Theorem C5_multiplicity_and_order :
  (forall (customerId : string) (estimates : list Estimate)
          (jobs : list Job) (invoices : list Invoice) (e : Estimate) (j : Job),
      customerEstimates customerId estimates = [e] ->
      e_status e = "pending"%string ->
      List.filter (fun j => JS.seq (j_customer_id j) customerId) jobs = [j] ->
      isEstimateVisit j = false ->
      j_status j = "scheduled"%string ->
      customerInvoices customerId invoices = [] ->
      useCustomerStage customerId false estimates jobs invoices
      = [JobScheduled; PendingEstimate]) /\
  (forall (customerId : string) (needsEstimate : bool)
          (estimates : list Estimate) (jobs : list Job)
          (invoices : list Invoice),
      useCustomerStage customerId needsEstimate estimates jobs invoices
      `sublist_of` rule_order) /\
  (forall (customerId : string) (needsEstimate : bool)
          (estimates estimates' : list Estimate) (jobs jobs' : list Job)
          (invoices invoices' : list Invoice),
      estimates = estimates' -> jobs = jobs' -> invoices = invoices' ->
      useCustomerStage customerId needsEstimate estimates jobs invoices =
      useCustomerStage customerId needsEstimate estimates' jobs' invoices').
Proof.
  split; [|split].
  - intros customerId estimates jobs invoices e j He Hpending Hj Hvisit
           Hscheduled Hinv.
    assert (Hjc : JS.seq (j_customer_id j) customerId = true).
    { assert (Hin : In j (List.filter
                (fun j => JS.seq (j_customer_id j) customerId) jobs))
        by (rewrite Hj; by left).
      by apply filter_In in Hin as [_ ?]. }
    assert (Hec : JS.seq (e_customer_id e) customerId = true).
    { assert (Hin : In e (customerEstimates customerId estimates))
        by (rewrite He; by left).
      by apply filter_In in Hin as [_ ?]. }
    unfold useCustomerStage.
    assert (E1 : completedAllStages customerId jobs invoices = false).
    { unfold completedAllStages, allInvoicesPaid. rewrite Hinv.
      cbn [length Nat.ltb Nat.leb andb]. by rewrite andb_false_r. }
    assert (E2 : hasRejectedEstimateOnly customerId estimates = false).
    { unfold hasRejectedEstimateOnly. rewrite He.
      cbn [length Nat.ltb Nat.leb andb forallb]. by rewrite Hpending. }
    assert (E3 : hasPendingPayment customerId invoices = false).
    { unfold hasPendingPayment.
      rewrite (existsb_restrict
                 (fun i => JS.seq (i_customer_id i) customerId)).
      - fold (customerInvoices customerId invoices). by rewrite Hinv.
      - intros x Hx. by apply andb_prop in Hx as [? _]. }
    assert (E4 : hasScheduledJob customerId jobs = true).
    { unfold hasScheduledJob.
      rewrite (existsb_restrict
                 (fun j => JS.seq (j_customer_id j) customerId)).
      - rewrite Hj. cbn [existsb]. by rewrite Hjc, Hvisit, Hscheduled.
      - intros x Hx. apply andb_prop in Hx as [Hx _].
        by apply andb_prop in Hx as [? _]. }
    assert (E5 : hasScheduledEstimateVisit customerId jobs = false).
    { unfold hasScheduledEstimateVisit.
      rewrite (existsb_restrict
                 (fun j => JS.seq (j_customer_id j) customerId)).
      - rewrite Hj. cbn [existsb]. by rewrite Hjc, Hvisit.
      - intros x Hx. apply andb_prop in Hx as [Hx _].
        by apply andb_prop in Hx as [? _]. }
    assert (E6 : hasPendingEstimate customerId estimates = true).
    { unfold hasPendingEstimate.
      rewrite (existsb_restrict
                 (fun e => JS.seq (e_customer_id e) customerId)).
      - fold (customerEstimates customerId estimates). rewrite He.
        cbn [existsb]. by rewrite Hec, Hpending.
      - intros x Hx. by apply andb_prop in Hx as [? _]. }
    assert (E7 : hasApprovedEstimate customerId estimates = false).
    { unfold hasApprovedEstimate.
      rewrite (existsb_restrict
                 (fun e => JS.seq (e_customer_id e) customerId)).
      - fold (customerEstimates customerId estimates). rewrite He.
        cbn [existsb]. by rewrite Hec, Hpending.
      - intros x Hx. by apply andb_prop in Hx as [? _]. }
    assert (E8 : hasCompletedJob customerId jobs invoices = false).
    { unfold hasCompletedJob.
      rewrite (existsb_restrict
                 (fun j => JS.seq (j_customer_id j) customerId)).
      - rewrite Hj. cbn [existsb]. by rewrite Hjc, Hscheduled.
      - intros x Hx. apply andb_prop in Hx as [Hx _].
        apply andb_prop in Hx as [Hx _].
        by apply andb_prop in Hx as [? _]. }
    rewrite E1, E2, E3, E4, E5, E6, E7, E8. reflexivity.
  - intros customerId needsEstimate estimates jobs invoices.
    unfold useCustomerStage.
    destruct (completedAllStages _ _ _); [apply sublist_nil_l|].
    destruct (hasRejectedEstimateOnly _ _); [apply sublist_nil_l|].
    apply pushes_in_rule_order.
  - by intros customerId needsEstimate estimates estimates' jobs jobs'
              invoices invoices' -> -> ->.
Qed.

(** C5, the instance of the testable properties. *)
Lemma C5_multiplicity_and_order_witness :
  useCustomerStage "c1" false
    [mkEstimate "e1" "c1" "pending"]
    [mkJob "j1" "c1" "Replace water heater" "scheduled"]
    []
  = [JobScheduled; PendingEstimate].
Proof.
  exact (proj1 C5_multiplicity_and_order "c1"
           [mkEstimate "e1" "c1" "pending"]
           [mkJob "j1" "c1" "Replace water heater" "scheduled"]
           []
           (mkEstimate "e1" "c1" "pending")
           (mkJob "j1" "c1" "Replace water heater" "scheduled")
           eq_refl eq_refl eq_refl eq_refl eq_refl eq_refl).
Defined.

(** C9.  For a customer all of whose jobs are estimate visits (or who has
    no job), the completion exit is not taken, whatever the invoices are;
    if moreover [needsEstimate] is true and the customer has no estimate,
    the derived sequence begins with Estimates Queue, hence is not
    empty. *)
Theorem C9_estimate_only_never_complete (customerId : string)
    (needsEstimate : bool) (estimates : list Estimate) (jobs : list Job)
    (invoices : list Invoice) :
  (forall j, In j jobs -> j_customer_id j = customerId ->
             isEstimateVisit j = true) ->
  completedAllStages customerId jobs invoices = false /\
  (needsEstimate = true ->
   customerEstimates customerId estimates = [] ->
   exists rest,
     useCustomerStage customerId needsEstimate estimates jobs invoices
     = EstimatesQueue :: rest).
Proof.
  intros Hvisits.
  assert (E1 : completedAllStages customerId jobs invoices = false).
  { apply completedAllStages_needs_job. apply filter_none.
    intros j Hj. destruct (JS.seq (j_customer_id j) customerId) eqn:Ec; [|done].
    apply seq_true in Ec. by rewrite (Hvisits j Hj Ec). }
  split; [exact E1|].
  intros -> Hnone. unfold useCustomerStage. rewrite E1.
  unfold hasRejectedEstimateOnly. rewrite Hnone.
  cbn [length Nat.ltb Nat.leb andb push_if app].
  apply pushes_keep_head.
Qed.

(** C9, a concrete customer: one completed estimate-visit job, invoiced
    and paid, no estimate, [needsEstimate = true]. *)
Lemma C9_estimate_only_never_complete_witness :
  let jobs := [mkJob "j1" "c1" "Estimate Visit - kitchen" "completed"] in
  let invoices := [mkInvoice "i1" "c1" (Some "j1"%string) "paid"] in
  completedAllStages "c1" jobs invoices = false /\
  useCustomerStage "c1" true [] jobs invoices = [EstimatesQueue].
Proof.
  intros jobs invoices.
  assert (Hvisits : forall j, In j jobs -> j_customer_id j = "c1"%string ->
                              isEstimateVisit j = true).
  { intros j [<-|[]] _. reflexivity. }
  destruct (C9_estimate_only_never_complete "c1" true [] jobs invoices Hvisits)
    as [H1 H2].
  split; [exact H1|].
  destruct (H2 eq_refl eq_refl) as [rest Hrest].
  reflexivity.
Defined.

End StageClaims.

(* ===================================================================== *)
(** * Properties of the jobs store                                        *)
(* ===================================================================== *)

Section StoreFacts.
Import OptimizedFetch ErrorHandler JobStore.
Context {Job NewJob Patch W : Type}.
Variable job_id : Job -> string.
Variable spread : Job -> Patch -> Job.
Variable with_id : NewJob -> string -> string -> Job.
Context {col : Collaborators Job NewJob Patch W}.

Ltac run_store :=
  unfold addJob, updateJob, deleteJob, bind, try_catch, set, reading,
    access, console_error, on_ledger, data_or_throw, throw, ret;
  cbn.

Lemma updateJob_online_failure (app : App Job W) id updates e :
  onLine (world app) = true ->
  fails_with (supabase_update id updates (world app)).1 e ->
  (updateJob job_id spread id updates app).1 = Throw e /\
  failure_recorded app (updateJob job_id spread id updates app).2 e.
Proof.
  intros Hon Hfail. run_store. rewrite Hon. cbn.
  destruct (supabase_update id updates (world app)) as [[e'|d [e'|]] w'];
    cbn in Hfail; [subst e'..|done]; by cbn.
Qed.

Lemma deleteJob_online_failure (app : App Job W) id e :
  onLine (world app) = true ->
  fails_with (supabase_delete id (world app)).1 e ->
  (deleteJob job_id id app).1 = Throw e /\
  failure_recorded app (deleteJob job_id id app).2 e.
Proof.
  intros Hon Hfail. run_store. rewrite Hon. cbn.
  destruct (supabase_delete id (world app)) as [[e'|d [e'|]] w'];
    cbn in Hfail; [subst e'..|done]; by cbn.
Qed.

Lemma addJob_online_failure (app : App Job W) job e :
  onLine (world app) = true ->
  insert_fails_with job (world app) e ->
  (addJob with_id job app).1 = Normal None /\
  failure_recorded app (addJob with_id job app).2 e.
Proof.
  intros Hon Hfail. run_store. rewrite Hon. cbn.
  destruct job as [j|js]; cbn in Hfail |- *.
  - destruct (supabase_insert_single j (world app)) as [[e'|d [e'|]] w'];
      cbn in Hfail; [subst e'..|done]; by cbn.
  - destruct (supabase_insert_many js (world app)) as [[e'|d [e'|]] w'];
      cbn in Hfail; [subst e'..|done]; by cbn.
Qed.

(** A suppressed [fetchJobs] is the identity on everything. *)
Lemma fetchJobs_suppressed (app : App Job W) :
  (shouldFetchData (Date_now (world app)) STORE_KEY false (fetchCache app)).1
  = false ->
  fetchJobs false app = (Normal tt, app).
Proof.
  intros Hno. pose proof (shouldFetchData_false_frame _ _ _ Hno) as Hframe.
  unfold fetchJobs, bind, shouldFetch.
  destruct (shouldFetchData _ _ _ _) as [b c]. cbn in Hno, Hframe. subst b c.
  cbn. by destruct app.
Qed.

End StoreFacts.

Section StoreClaims.
Import OptimizedFetch ErrorHandler JobStore.

(** C8 (as stated, refuted).  Online, the remote insert of [addJob]
    answers with a foreign-key violation; the promise returned by
    [addJob] is fulfilled with [null], it is not rejected with the
    error. *)
Lemma C8_counterexample :
  let job := inl (CustomerStage.mkJob EmptyString "c9" "Install sink" "scheduled") in
  let r := addJob (col := backend_collaborators) row_with_id job failing_app in
  onLine (Collaborators := backend_collaborators) (world failing_app) = true /\
  insert_fails_with (col := backend_collaborators) job (world failing_app)
                    fk_violation /\
  r.1 = Normal None /\
  r.1 <> Throw fk_violation.
Proof.
  intros job r. split; [reflexivity|]. split; [reflexivity|].
  split; [reflexivity|discriminate].
Qed.

(** C8 (amended).  While the runtime is online, if the remote call of a
    mutation fails with an error: [updateJob] and [deleteJob] reject with
    that error; [addJob] is fulfilled with [null]; and in all three cases
    the store keeps its collection, resets [loading], records the error's
    message in [error], and the ledger is not invalidated. *)
Theorem C8_online_mutation_failure {Job NewJob Patch W : Type}
    (job_id : Job -> string) (spread : Job -> Patch -> Job)
    (with_id : NewJob -> string -> string -> Job)
    (col : Collaborators Job NewJob Patch W)
    (app : App Job W) (e : ErrorObject) :
  onLine (world app) = true ->
  (forall id updates,
      fails_with (supabase_update id updates (world app)).1 e ->
      (updateJob job_id spread id updates app).1 = Throw e /\
      failure_recorded app (updateJob job_id spread id updates app).2 e) /\
  (forall id,
      fails_with (supabase_delete id (world app)).1 e ->
      (deleteJob job_id id app).1 = Throw e /\
      failure_recorded app (deleteJob job_id id app).2 e) /\
  (forall job,
      insert_fails_with job (world app) e ->
      (addJob with_id job app).1 = Normal None /\
      failure_recorded app (addJob with_id job app).2 e).
Proof.
  intros Hon. split; [|split].
  - intros id updates. by apply updateJob_online_failure.
  - intros id. by apply deleteJob_online_failure.
  - intros job. by apply addJob_online_failure.
Qed.

(** C8, a concrete run: [updateJob("j1", "completed")] against the
    backend that rejects every write. *)
Lemma C8_online_mutation_failure_witness :
  let r := updateJob (col := backend_collaborators) row_id row_spread
                     "j1" "completed"%string failing_app in
  r.1 = Throw fk_violation /\
  state r.2 = mkState (jobs (state failing_app)) false (message fk_violation) /\
  fetchCache r.2 = fetched_ledger.
Proof.
  intros r.
  destruct (C8_online_mutation_failure row_id row_spread row_with_id
              backend_collaborators failing_app fk_violation eq_refl)
    as (Hupd & _ & _).
  destruct (Hupd "j1"%string "completed"%string eq_refl) as (H1 & H2 & H3).
  split; [exact H1|]. split; [exact H2|exact H3].
Defined.

(** C10.  Whenever [shouldFetchData('jobs', false)] answers [false],
    [fetchJobs()] completes at once and is the identity: the store state
    (collection, loading flag, error), the whole ledger, the external
    world, and the record of network, mirror and queue accesses are
    exactly what they were. *)
Theorem C10_suppressed_fetch_is_noop {Job NewJob Patch W : Type}
    (col : Collaborators Job NewJob Patch W) (app : App Job W) :
  (shouldFetchData (Date_now (world app)) STORE_KEY false (fetchCache app)).1
  = false ->
  let r := fetchJobs false app in
  r = (Normal tt, app) /\
  state r.2 = state app /\
  fetchCache r.2 !! STORE_KEY = fetchCache app !! STORE_KEY /\
  world r.2 = world app /\
  trace r.2 = trace app.
Proof.
  intros Hno r. subst r. rewrite (fetchJobs_suppressed app Hno). done.
Qed.

(** C10, a concrete run: one minute after a completed fetch, the cache is
    still fresh and [fetchJobs()] does nothing. *)
Lemma C10_suppressed_fetch_is_noop_witness :
  fetchJobs (col := backend_collaborators) false failing_app
  = (Normal tt, failing_app).
Proof.
  assert (Hno : (shouldFetchData
                   (Date_now (Collaborators := backend_collaborators)
                             (world failing_app))
                   STORE_KEY false (fetchCache failing_app)).1 = false)
    by (vm_compute; reflexivity).
  exact (proj1 (C10_suppressed_fetch_is_noop backend_collaborators
                  failing_app Hno)).
Defined.

End StoreClaims.

(* ===================================================================== *)
(** * Concrete runs                                                       *)
(* ===================================================================== *)

Section ConcreteRuns.
Import OptimizedFetch ErrorHandler CustomerStage JobStore.

(** Estimate visits are recognised whatever the case of the description. *)
Example estimate_visit_any_case :
  isEstimateVisit (mkJob "j1" "c1" "ESTIMATE Visit - roof" "scheduled") = true /\
  isEstimateVisit (mkJob "j2" "c1" "Estimate revision" "scheduled") = false.
Proof. split; reflexivity. Qed.

(** Freshness: right after a completed fetch the answer is [false]; once
    more than five minutes have passed it is [true]; after an invalidation
    it is [true] at once. *)
Example ttl_and_invalidation :
  (shouldFetchData 1700000000001 "jobs" false fetched_ledger).1 = false /\
  (shouldFetchData 1700000300000 "jobs" false fetched_ledger).1 = false /\
  (shouldFetchData 1700000300001 "jobs" false fetched_ledger).1 = true /\
  (shouldFetchData 1700000000001 "jobs" false
     (invalidateCache "jobs" fetched_ledger)).1 = true /\
  invalidateAllCaches fetched_ledger = ∅.
Proof. repeat split; vm_compute; reflexivity. Qed.

(** A failure reported before any entry exists leaves the stamp 0, and the
    next check permits the fetch. *)
Example failure_without_entry :
  (shouldFetchData 1700000000000 "jobs" false (markFetchFailed "jobs" ∅)).1
  = true.
Proof. vm_compute. reflexivity. Qed.

(** Precedence of the classifier's rules. *)
Example classifier_precedence :
  categorizeError true
    (Some (mkError (Some "42501"%string) (Some 500) (Some "login"%string) true))
  = AUTHORIZATION /\
  categorizeError true
    (Some (mkError (Some "XX000"%string) (Some 401) (Some "network"%string) true))
  = AUTHENTICATION /\
  categorizeError true
    (Some (mkError None None (Some "invalid token, check network"%string) false))
  = AUTHENTICATION /\
  categorizeError true
    (Some (mkError None None (Some "Failed to fetch"%string) true))
  = NETWORK /\
  categorizeError true None = UNKNOWN /\
  categorizeError false None = OFFLINE.
Proof. repeat split; vm_compute; reflexivity. Qed.

(** An operation that keeps answering 503 is invoked four times when
    [maxRetries = 3], and the rejection is classified [SERVER]. *)
Example retries_exhausted :
  let unavailable : Settled any nat :=
    Rejected (Some (mkError None (Some 503) None false)) in
  let run := withRetry (spy_runtime script_runtime) (spy script_operation)
               3 1000
               (mkScript true (replicate 6 unavailable), []) in
  length run.2.2 = 4%nat /\
  (exists ae, run.1 = Rejected ae /\ app_category ae = SERVER) /\
  length (script_outcomes run.2.1) = 2%nat.
Proof. repeat split. eexists. split; reflexivity. Qed.

(** The completion exit: one completed job, one paid invoice for it. *)
Example stage_completion :
  useCustomerStage "c1" true []
    [mkJob "j1" "c1" "Replace water heater" "completed"]
    [mkInvoice "i1" "c1" (Some "j1"%string) "paid"]
  = [].
Proof. reflexivity. Qed.

(** All seven stages at once, in rule order. *)
Example all_stages :
  useCustomerStage "c1" true
    [ mkEstimate "e1" "c1" "pending"; mkEstimate "e2" "c1" "approved" ]
    [ mkJob "j1" "c1" "Replace water heater" "in_progress";
      mkJob "j2" "c1" "Estimate visit" "scheduled";
      mkJob "j3" "c1" "Fix leak" "completed" ]
    [ mkInvoice "i1" "c1" None "overdue" ]
  = rule_order.
Proof. reflexivity. Qed.

(** [fetchJobs()] against [cold_failing_app]: the mirror is shown, the degraded-mode message
    is recorded, and the ledger entry is marked failed with the stamp of the
    attempt.  A second [fetchJobs()] is then suppressed: no further access
    is made. *)
Example failed_fetch_then_suppressed :
  let r1 := fetchJobs (col := backend_collaborators) false cold_failing_app in
  let r2 := fetchJobs (col := backend_collaborators) false r1.2 in
  r1.1 = Normal tt /\
  jobs (state r1.2) = [mkJob "j1" "c1" "Replace water heater" "scheduled"] /\
  error (state r1.2)
  = Some "Using cached job data. Some information may not be up to date."%string /\
  trace r1.2 = [MirrorLoad; NetSelect; ConsoleError; MirrorLoad] /\
  fetchCache r1.2 !! "jobs" = Some (mkEntry 1700000000000 false) /\
  r2 = (Normal tt, r1.2).
Proof. repeat split; vm_compute; reflexivity. Qed.

(** Offline, [addJob] queues the change and succeeds locally. *)
Example offline_add :
  let app := mkApp (mkState [] false None) fetched_ledger
                   (mkBackend false 1700000000000 None []) [] in
  let r := addJob (col := backend_collaborators) row_with_id
             (inl (mkJob EmptyString "c1" "Fix leak" "scheduled")) app in
  r.1 = Normal (Some [mkJob "6f1c2d3e-0000-4000-8000-000000000001" "c1"
                            "Fix leak" "scheduled"]) /\
  trace r.2 = [SyncQueue] /\
  fetchCache r.2 = ∅.
Proof. repeat split; vm_compute; reflexivity. Qed.

End ConcreteRuns.

(* ===================================================================== *)
(** * Further properties of the fetch ledger                              *)
(* ===================================================================== *)

Section LedgerExtras.
Import OptimizedFetch.
Implicit Types (c : FetchCache) (key : string) (now : Z).

Lemma inheritable_not_PROTO key : inheritable key = false -> key ≠ PROTO.
Proof. intros H ->. vm_compute in H. discriminate H. Qed.

Lemma fetchCache_delete_own key c :
  key ≠ PROTO -> fetchCache_delete key c = delete key c.
Proof.
  intros Hne. unfold fetchCache_delete, JS.seq.
  by rewrite (proj2 (String.eqb_neq key PROTO) Hne).
Qed.

(** Invalidating any key but ["__proto__"] removes its entry and no
    other. *)
Lemma invalidateCache_lookup key key' c :
  key ≠ PROTO ->
  invalidateCache key c !! key' = if decide (key = key') then None else c !! key'.
Proof.
  intros Hne. unfold invalidateCache.
  destruct (negb (falsy (fetchCache_get c key))) eqn:E.
  - by rewrite (fetchCache_delete_own key c Hne), lookup_delete.
  - case_decide as Hk; [|done]. subst key'.
    destruct (c !! key) as [e|] eqn:Hc; [|done].
    rewrite (fetchCache_get_own c key e Hc) in E. discriminate E.
Qed.

(** Invalidating ["__proto__"] changes nothing: the prototype is not an own
    property and [delete] leaves it in place. *)
Lemma invalidateCache_PROTO c : invalidateCache PROTO c = c.
Proof.
  unfold invalidateCache, fetchCache_delete.
  by destruct (negb (falsy (fetchCache_get c PROTO))).
Qed.

(** X1.  For a key under which nothing is inherited (not a member name of
    [Object.prototype], nor "timestamp" or "inProgress"): after
    [invalidateCache(key)] the key has no entry, so the next unforced
    [shouldFetchData(key)] permits the fetch whatever the ledger held
    before and whatever the clock reads; the entries of the other keys are
    kept. *)
Theorem X1_invalidate_forces_fetch now key c :
  inheritable key = false ->
  invalidateCache key c !! key = None /\
  shouldFetchData now key false (invalidateCache key c)
  = (true, <[key := mkEntry now true]> (invalidateCache key c)) /\
  (forall key', key' ≠ key -> invalidateCache key c !! key' = c !! key').
Proof.
  intros Hpl. pose proof (inheritable_not_PROTO key Hpl) as Hne.
  assert (H : invalidateCache key c !! key = None).
  { rewrite invalidateCache_lookup by done. by case_decide. }
  split; [exact H|]. split.
  - by apply shouldFetchData_absent.
  - intros key' Hne'. rewrite invalidateCache_lookup by done. by case_decide.
Qed.

(** X1 on the jobs key: a completed fetch on record, invalidated, is
    fetched again one millisecond later. *)
Lemma X1_invalidate_forces_fetch_witness :
  shouldFetchData 1700000000001 "jobs" false
    (invalidateCache "jobs" fetched_ledger)
  = (true, <["jobs" := mkEntry 1700000000001 true]>
             (invalidateCache "jobs" fetched_ledger)).
Proof.
  exact (proj1 (proj2 (X1_invalidate_forces_fetch 1700000000001 "jobs"
                         fetched_ledger eq_refl))).
Defined.

Lemma foldr_delete_lookup (ks : list string) c key :
  PROTO ∉ ks ->
  foldr (fun k acc => fetchCache_delete k acc) c ks !! key
  = if decide (key ∈ ks) then None else c !! key.
Proof.
  induction ks as [|k ks IH]; cbn [foldr]; intros Hp.
  - case_decide as H; [by apply elem_of_nil in H|done].
  - assert (Hk0 : k ≠ PROTO).
    { intros ->. apply Hp. apply list_elem_of_here. }
    assert (Hp' : PROTO ∉ ks).
    { intros Hin. apply Hp. by apply list_elem_of_further. }
    rewrite (fetchCache_delete_own k _ Hk0), lookup_delete, (IH Hp').
    destruct (decide (k = key)) as [->|Hk].
    + destruct (decide (key ∈ key :: ks)) as [|Hn]; [done|].
      exfalso. apply Hn. left.
    + destruct (decide (key ∈ ks)) as [Hin|Hin];
        destruct (decide (key ∈ k :: ks)) as [Hin'|Hin']; try done.
      * exfalso. apply Hin'. by right.
      * apply elem_of_cons in Hin' as [->|]; done.
Qed.

(** [Object.keys] lists the keys of the own entries. *)
Lemma elem_of_Object_keys c key :
  key ∈ Object_keys c <-> key ≠ PROTO /\ is_Some (c !! key).
Proof.
  unfold Object_keys. rewrite list_elem_of_filter. split.
  - intros [Hne Hin]. split; [done|].
    apply list_elem_of_fmap in Hin as [[k e] [-> Hin]].
    apply elem_of_map_to_list in Hin. by eexists.
  - intros [Hne [e He]]. split; [done|].
    apply list_elem_of_fmap. exists (key, e).
    split; [done|]. by apply elem_of_map_to_list.
Qed.

Lemma invalidateAllCaches_lookup c key :
  invalidateAllCaches c !! key = if decide (key = PROTO) then c !! PROTO else None.
Proof.
  unfold invalidateAllCaches. rewrite foldr_delete_lookup.
  - destruct (decide (key ∈ Object_keys c)) as [Hin|Hin].
    + apply elem_of_Object_keys in Hin as [Hne _]. by case_decide.
    + case_decide as Hk; [by subst key|].
      destruct (c !! key) as [e|] eqn:E; [|done].
      exfalso. apply Hin. apply elem_of_Object_keys. split; [done|by eexists].
  - intros Hin. apply elem_of_Object_keys in Hin as [Hne _]. done.
Qed.

(** X2.  [invalidateAllCaches()] removes every own entry of the ledger,
    whatever it held, and keeps the prototype a write under "__proto__"
    installed; a ledger never written under "__proto__" becomes empty.
    Afterwards every data type under whose key nothing is inherited is
    fetched on its next check. *)
Theorem X2_invalidateAll_empties now key c :
  (forall k, k ≠ PROTO -> invalidateAllCaches c !! k = None) /\
  invalidateAllCaches c !! PROTO = c !! PROTO /\
  (c !! PROTO = None -> invalidateAllCaches c = ∅) /\
  (inheritable key = false ->
   (shouldFetchData now key false (invalidateAllCaches c)).1 = true).
Proof.
  split; [|split; [|split]].
  - intros k Hk. rewrite invalidateAllCaches_lookup. by case_decide.
  - rewrite invalidateAllCaches_lookup. by case_decide.
  - intros Hp. apply map_eq. intros k.
    rewrite lookup_empty, invalidateAllCaches_lookup. by case_decide.
  - intros Hpl. rewrite shouldFetchData_absent; [done|done|].
    rewrite invalidateAllCaches_lookup. case_decide as Hk; [|done].
    by apply inheritable_not_PROTO in Hpl.
Qed.

(** X3.  After [markFetchComplete(key)] at time [t], an unforced check at
    time [now] permits a fetch exactly when more than [CACHE_EXPIRY]
    (300000 ms) have passed since [t]; when it does not, it leaves the
    ledger as it is. *)
Theorem X3_freshness_window t now key c :
  let c1 := markFetchComplete t key c in
  (shouldFetchData now key false c1).1 = bool_decide (now - t > 300000) /\
  ((shouldFetchData now key false c1).1 = false ->
   (shouldFetchData now key false c1).2 = c1).
Proof.
  intros c1. split; [|apply shouldFetchData_false_frame].
  subst c1. unfold markFetchComplete.
  rewrite (shouldFetchData_own now key _ (mkEntry t false));
    [|by rewrite lookup_insert_eq].
  cbn [inProgress timestamp]. change CACHE_EXPIRY with 300000.
  destruct (now - t >? 300000) eqn:E; cbn [fst].
  - apply Z.gtb_lt in E. symmetry. apply bool_decide_eq_true. lia.
  - symmetry. apply bool_decide_eq_false. intros H.
    assert ((now - t >? 300000) = true) by (apply Z.gtb_lt; lia).
    congruence.
Qed.

(** X4.  A forced refresh is permitted in every ledger state, also while a
    fetch for the key is in flight, and stamps the entry as in flight at
    the time of the call; an unforced check after it is refused whatever
    the clock reads. *)
Theorem X4_force_refresh now now' key c :
  shouldFetchData now key true c = (true, <[key := mkEntry now true]> c) /\
  shouldFetchData now' key false (shouldFetchData now key true c).2
  = (false, (shouldFetchData now key true c).2).
Proof.
  split; [reflexivity|].
  apply (shouldFetchData_inProgress now' key _ (mkEntry now true));
    [|reflexivity].
  change (shouldFetchData now key true c).2
    with (<[key := mkEntry now true]> c).
  by rewrite lookup_insert_eq.
Qed.

(** X5.  [markFetchFailed(key)] keeps the stamp the entry had (0 when the
    key had no entry) and clears the in-flight flag; doing it twice changes
    nothing more; and the next unforced check permits a fetch exactly when
    more than [CACHE_EXPIRY] have passed since that kept stamp. *)
Theorem X5_failed_keeps_stamp now key c :
  let kept := default 0 (timestamp <$> c !! key) in
  markFetchFailed key c !! key = Some (mkEntry kept false) /\
  markFetchFailed key (markFetchFailed key c) = markFetchFailed key c /\
  (shouldFetchData now key false (markFetchFailed key c)).1
  = bool_decide (now - kept > 300000).
Proof.
  intros kept.
  assert (H : markFetchFailed key c !! key = Some (mkEntry kept false)).
  { rewrite markFetchFailed_stamp. by rewrite lookup_insert_eq. }
  split; [exact H|]. split.
  - rewrite (markFetchFailed_stamp key (markFetchFailed key c)), H. cbn.
    rewrite markFetchFailed_stamp. by rewrite insert_insert_eq.
  - rewrite (shouldFetchData_own now key _ _ H).
    cbn [inProgress timestamp]. change CACHE_EXPIRY with 300000.
    destruct (now - kept >? 300000) eqn:E; cbn [fst].
    + apply Z.gtb_lt in E. symmetry. apply bool_decide_eq_true. lia.
    + symmetry. apply bool_decide_eq_false. intros Hgt.
      assert ((now - kept >? 300000) = true) by (apply Z.gtb_lt; lia).
      congruence.
Qed.

(** X6.  Data types are independent.  Let [key] be any key but
    "__proto__" and [key'] another key.  Each ledger operation on [key]
    (a check, forced or not, [markFetchComplete], [markFetchFailed],
    [invalidateCache]) keeps the entry of [key'] and the prototype of the
    ledger, and the answer of every later [shouldFetchData(key')] is the
    one the ledger would have given before the operation.  When nothing is
    inherited under [key'], that answer depends on the ledger through the
    entry of [key'] alone. *)
Theorem X6_keys_independent now key key' force c :
  key' ≠ key -> key ≠ PROTO ->
  (forall c1,
     c1 ∈ [(shouldFetchData now key force c).2; markFetchComplete now key c;
           markFetchFailed key c; invalidateCache key c] ->
     c1 !! key' = c !! key' /\ c1 !! PROTO = c !! PROTO /\
     forall now' force',
       (shouldFetchData now' key' force' c1).1
       = (shouldFetchData now' key' force' c).1) /\
  (inheritable key' = false ->
   forall c2, c2 !! key' = c !! key' ->
     forall now' force',
       (shouldFetchData now' key' force' c2).1
       = (shouldFetchData now' key' force' c).1).
Proof.
  intros Hne Hp. split.
  - assert (Hframe : forall c1,
              (forall k, k ≠ key -> c1 !! k = c !! k) ->
              c1 !! key' = c !! key' /\ c1 !! PROTO = c !! PROTO /\
              forall now' force',
                (shouldFetchData now' key' force' c1).1
                = (shouldFetchData now' key' force' c).1).
    { intros c1 H. pose proof (H key' Hne) as H1.
      assert (H2 : c1 !! PROTO = c !! PROTO) by (apply H; congruence).
      split; [done|]. split; [done|]. intros now' force'.
      apply shouldFetchData_answer_ext. by apply fetchCache_get_ext. }
    intros c1 Hin. apply Hframe. intros k Hk.
    repeat (apply elem_of_cons in Hin as [->|Hin]).
    + by apply shouldFetchData_other.
    + unfold markFetchComplete. by rewrite lookup_insert_ne.
    + rewrite markFetchFailed_stamp. by rewrite lookup_insert_ne.
    + rewrite invalidateCache_lookup by done. by case_decide.
    + by apply elem_of_nil in Hin.
  - intros Hpl c2 Heq now' force'. apply shouldFetchData_answer_ext.
    rewrite !fetchCache_get_plain by done. by rewrite Heq.
Qed.

(** X6, a concrete ledger: marking "customers" failed leaves the in-flight
    entry of "jobs" alone, and a check of "jobs" is still refused. *)
Lemma X6_keys_independent_witness :
  let c := (shouldFetchData 1700000000000 "jobs" false ∅).2 in
  markFetchFailed "customers" c !! "jobs"
  = Some (mkEntry 1700000000000 true) /\
  (shouldFetchData 1700000000001 "jobs" false
     (markFetchFailed "customers" c)).1 = false.
Proof.
  intros c.
  destruct (proj1 (X6_keys_independent 0 "customers" "jobs" false c
                     ltac:(discriminate) ltac:(discriminate))
              (markFetchFailed "customers" c)) as (H1 & _ & H2).
  { apply list_elem_of_further, list_elem_of_further, list_elem_of_here. }
  split.
  - rewrite H1. reflexivity.
  - rewrite H2. reflexivity.
Defined.

(** The exclusion of "__proto__" is needed: a forced check under
    "__proto__" on an empty ledger makes its entry the prototype of the
    ledger, after which "inProgress" and "timestamp", which have no entry,
    read as the fields of that entry and are no longer fetched. *)
Lemma reparenting_changes_other_keys :
  let c := (shouldFetchData 1700000000000 PROTO true ∅).2 in
  c !! "inProgress" = None /\ c !! "timestamp" = None /\
  (shouldFetchData 1700000000001 "inProgress" false ∅).1 = true /\
  (shouldFetchData 1700000000001 "inProgress" false c).1 = false /\
  (shouldFetchData 1700000000001 "timestamp" false ∅).1 = true /\
  (shouldFetchData 1700000000001 "timestamp" false c).1 = false.
Proof. repeat split; vm_compute; reflexivity. Qed.

(** X30.  A key that names a member of [Object.prototype] ("toString",
    "constructor", "__proto__", ...) and has no entry of its own reads as
    the inherited member: the unforced check is refused at every clock
    reading and writes nothing, and [invalidateCache] changes nothing.
    Only a forced check or a completion or failure mark gives the key an
    entry. *)
Theorem X30_inherited_member_never_fetched now key c :
  JS.inherited key = true -> c !! key = None ->
  shouldFetchData now key false c = (false, c) /\
  invalidateCache key c = c /\
  (shouldFetchData now key true c).2 !! key = Some (mkEntry now true) /\
  markFetchComplete now key c !! key = Some (mkEntry now false) /\
  markFetchFailed key c !! key = Some (mkEntry 0 false).
Proof.
  intros Hin Hk.
  assert (Hg : fetchCache_get c key = Member true).
  { unfold fetchCache_get. rewrite Hk.
    unfold JS.inherited in Hin.
    cbn [existsb JS.Object_prototype_names] in Hin.
    repeat (apply orb_true_iff in Hin as [Hin|Hin]);
      try discriminate Hin;
      apply String.eqb_eq in Hin; subst key;
      cbn [JS.seq]; by destruct (c !! PROTO). }
  split; [|split; [|split; [|split]]].
  - unfold shouldFetchData. by rewrite Hg.
  - unfold invalidateCache. rewrite Hg. cbn [falsy negb].
    unfold fetchCache_delete. destruct (JS.seq key PROTO); [done|].
    by apply delete_id.
  - cbn [shouldFetchData snd]. by rewrite lookup_insert_eq.
  - unfold markFetchComplete. by rewrite lookup_insert_eq.
  - rewrite markFetchFailed_stamp, Hk. by rewrite lookup_insert_eq.
Qed.

(** X30 on an empty ledger: "toString" is never fetched. *)
Lemma X30_inherited_member_never_fetched_witness :
  shouldFetchData 1700000000000 "toString" false ∅ = (false, ∅).
Proof.
  exact (proj1 (X30_inherited_member_never_fetched 1700000000000 "toString"
                  ∅ eq_refl eq_refl)).
Defined.

End LedgerExtras.

(* ===================================================================== *)
(** * Further properties of the error handler                             *)
(* ===================================================================== *)

Section ErrorHandlerExtras.
Import ErrorHandler.

Ltac in_list :=
  solve [repeat first [apply list_elem_of_here | apply list_elem_of_further]].

Ltac split_elem H :=
  repeat (apply elem_of_cons in H as [H|H]); [..|by apply elem_of_nil in H].

(** The values the classifier can produce. *)
Lemma categorizeError_range (onLine : bool) (e : any) :
  categorizeError onLine e ∈
    [OFFLINE; NOT_FOUND; VALIDATION; AUTHORIZATION; SERVER; AUTHENTICATION;
     NETWORK; UNKNOWN] \/
  exists name, categorizeError onLine e = INHERITED name.
Proof.
  unfold categorizeError. destruct onLine; cbn [negb]; [|left; in_list].
  destruct (if JS.truthy_string (e ≫= code) then _ else None)
    as [cat|] eqn:E1.
  { destruct (JS.truthy_string (e ≫= code)); [|discriminate].
    destruct (e ≫= code) as [c|]; [|discriminate]. cbn in E1.
    apply supabaseErrorMap_range in E1 as [E1|[-> _]]; [|by right; eexists].
    left. split_elem E1; subst cat; in_list. }
  left.
  destruct (if JS.truthy_number (e ≫= status) then _ else None)
    as [cat|] eqn:E2.
  { destruct (JS.truthy_number (e ≫= status)); [|discriminate].
    destruct (e ≫= status) as [s|]; [|discriminate]. cbn in E2.
    apply httpErrorMap_lookup in E2. unfold httpErrorMap_graph in E2.
    split_elem E2; injection E2 as _ ->; in_list. }
  destruct (_ || _ || _ || _); [in_list|].
  destruct (_ || _ || _ || _); in_list.
Qed.

(** Online, an error whose code names a member of [Object.prototype] is
    given that member, whatever its status and message. *)
Lemma categorizeError_inherited_code (error : ErrorObject) (c : string) :
  code error = Some c -> JS.inherited c = true ->
  categorizeError true (Some error) = INHERITED c.
Proof.
  intros Hc Hi. unfold categorizeError. cbn [negb mbind option_bind].
  rewrite Hc. cbn [JS.truthy_string mbind option_bind].
  rewrite (supabaseErrorMap_get_inherited c Hi).
  destruct (String.eqb c EmptyString) eqn:E; [|done].
  apply String.eqb_eq in E. subst c. discriminate Hi.
Qed.

(** X7.  No error is ever classified [DATABASE]: although
    [shouldRetryOperation] lists three retryable categories, an operation
    is retried exactly when its error classifies as [NETWORK] or [SERVER];
    and nothing is retried while the runtime is offline. *)
Theorem X7_database_never_assigned (onLine : bool) (e : any) :
  categorizeError onLine e <> DATABASE /\
  (shouldRetryOperation onLine e = true <->
   categorizeError onLine e = NETWORK \/ categorizeError onLine e = SERVER) /\
  shouldRetryOperation false e = false.
Proof.
  assert (Hnd : categorizeError onLine e <> DATABASE).
  { intros Heq.
    destruct (categorizeError_range onLine e) as [H|[name H]];
      rewrite Heq in H; [split_elem H; discriminate|discriminate]. }
  split; [exact Hnd|]. split; [|reflexivity].
  unfold shouldRetryOperation. rewrite bool_decide_eq_true. split.
  - intros H. split_elem H; [by left|by right|done].
  - intros [-> | ->]; in_list.
Qed.

Lemma message_or_nonempty (e : any) (fallback : string) :
  fallback <> EmptyString -> message_or e fallback <> EmptyString.
Proof.
  intros Hf. unfold message_or, JS.truthy_string.
  destruct (e ≫= message) as [m|]; [|done]. cbn [default].
  destruct (String.eqb m EmptyString) eqn:E; cbn [negb]; [done|].
  by apply String.eqb_neq in E.
Qed.

(** X8.  Every standardized error is presentable: its message is never
    the empty string, it carries exactly three suggestions, none of them
    empty, and it keeps the raw error and the raw error's code
    unchanged. *)
Theorem X8_standardized_error_presentable (onLine : bool) (e : any)
    (retry : option RetryFn) :
  let ae := createAppError onLine e retry in
  app_message ae <> EmptyString /\
  length (app_suggestions ae) = 3%nat /\
  Forall (fun s => s <> EmptyString) (app_suggestions ae) /\
  app_originalError ae = e /\
  app_code ae = e ≫= code /\
  app_category ae = categorizeError onLine e.
Proof.
  intros ae. subst ae. cbn [createAppError app_message app_suggestions
    app_originalError app_code app_category].
  split.
  { unfold getUserFriendlyMessage.
    destruct (categorizeError onLine e);
      first [by apply message_or_nonempty | discriminate]. }
  split; [by destruct (categorizeError onLine e)|].
  split; [|done].
  destruct (categorizeError onLine e); cbn [getErrorSuggestions];
    repeat constructor; discriminate.
Qed.

(** X9.  Only validation and unknown failures, and failures whose code
    names an inherited member (which are given that member instead of a
    category), show the raw error's own message (when it has a non-empty
    one); for every other category the user-facing message is a fixed text
    that depends on the category alone, so the raw message is never
    shown. *)
Theorem X9_raw_message_exposure (o1 o2 : bool) (e1 e2 : any) :
  (categorizeError o1 e1 = categorizeError o2 e2 ->
   categorizeError o1 e1 <> VALIDATION ->
   categorizeError o1 e1 <> UNKNOWN ->
   (forall name, categorizeError o1 e1 <> INHERITED name) ->
   getUserFriendlyMessage o1 e1 = getUserFriendlyMessage o2 e2) /\
  (forall m, e1 ≫= message = Some m -> m <> EmptyString ->
     categorizeError o1 e1 = VALIDATION \/ categorizeError o1 e1 = UNKNOWN \/
     (exists name, categorizeError o1 e1 = INHERITED name) ->
     getUserFriendlyMessage o1 e1 = m).
Proof.
  split.
  - intros Heq Hv Hu Hi. unfold getUserFriendlyMessage. rewrite <- Heq.
    destruct (categorizeError o1 e1) as [| | | | | | | | |name]; try done.
    by destruct (Hi name).
  - intros m Hm Hne Hcat. unfold getUserFriendlyMessage.
    assert (Hor : forall fb, message_or e1 fb = m).
    { intros fb. unfold message_or, JS.truthy_string. rewrite Hm.
      apply String.eqb_neq in Hne. by rewrite Hne. }
    destruct Hcat as [-> | [-> | [name ->]]]; apply Hor.
Qed.

(** X9, concrete errors: an authorization failure shows the fixed text
    although the database message names a table; a validation failure shows
    the database message. *)
Lemma X9_raw_message_exposure_witness :
  getUserFriendlyMessage true
    (Some (mkError (Some "42501"%string) None
                   (Some "permission denied for table invoices"%string) false))
  = getUserFriendlyMessage true (Some (mkError None (Some 403) None false)) /\
  getUserFriendlyMessage true
    (Some (mkError (Some "23505"%string) None
                   (Some "duplicate key"%string) false))
  = "duplicate key"%string.
Proof.
  split.
  - apply (proj1 (X9_raw_message_exposure true true
      (Some (mkError (Some "42501"%string) None
                     (Some "permission denied for table invoices"%string) false))
      (Some (mkError None (Some 403) None false))));
      [reflexivity|discriminate|discriminate|intros name; discriminate].
  - apply (proj2 (X9_raw_message_exposure true true
      (Some (mkError (Some "23505"%string) None
                     (Some "duplicate key"%string) false)) None));
      [reflexivity|discriminate|by left].
Defined.

End ErrorHandlerExtras.

Section RetryExtras.
Import ErrorHandler.
Context {W : Type} (rt : Runtime W) {T : Type}.
Variable operation : W -> Settled any T * W.
Variable maxRetries : Z.
Variable delayMs : Q.

(** X10.  A failure that surfaces while the runtime is offline is never
    retried: whatever the raw error and however many retries are allowed,
    [withRetry] stops after that invocation and rejects with an error of
    category [OFFLINE]. *)
Theorem X10_offline_failure_not_retried (w w1 : W) (e : any) :
  0 <= maxRetries ->
  operation w = (Rejected e, w1) ->
  navigator_onLine w1 = false ->
  withRetry rt operation maxRetries delayMs w
  = (Rejected (createAppError false e None), w1) /\
  app_category (createAppError false e None) = OFFLINE.
Proof.
  intros Hmax Hop Hoff. split; [|reflexivity].
  unfold withRetry.
  destruct (Z.to_nat (maxRetries + 1)) as [|n] eqn:En; [lia|].
  cbn [withRetry_loop]. rewrite Hop, Hoff. reflexivity.
Qed.

(** X11.  With a negative [maxRetries] the operation is not invoked at
    all: [withRetry] rejects at once with the standardized form of
    [undefined], and the world is untouched. *)
Theorem X11_negative_maxRetries (w : W) :
  maxRetries < 0 ->
  withRetry rt operation maxRetries delayMs w
  = (Rejected (createAppError (navigator_onLine w) None None), w) /\
  app_originalError (createAppError (navigator_onLine w) None None) = None /\
  app_category (createAppError (navigator_onLine w) None None)
  = (if navigator_onLine w then UNKNOWN else OFFLINE).
Proof.
  intros Hneg. unfold withRetry.
  replace (Z.to_nat (maxRetries + 1)) with 0%nat by lia.
  split; [reflexivity|]. split; [reflexivity|].
  by destruct (navigator_onLine w).
Qed.

Lemma withRetry_loop_exhaust (remaining : nat) (attempt : Z) (lastError : any)
    (w : W) (log : list (Settled any T * W)) :
  always_retryable_failure rt operation ->
  Z.of_nat remaining = maxRetries + 1 - attempt ->
  let run := withRetry_loop (spy_runtime rt) (spy operation) maxRetries
               delayMs remaining attempt lastError (w, log) in
  length run.2.2 = (length log + remaining)%nat /\
  exists ae, run.1 = Rejected ae.
Proof.
  intros Hfail. revert attempt lastError w log.
  induction remaining as [|r IH]; intros attempt lastError w log Hinv.
  { cbn. split; [lia|by eexists]. }
  cbn [withRetry_loop spy].
  destruct (Hfail w) as (e & w1 & Hop & Hretry). rewrite Hop.
  cbn [navigator_onLine spy_runtime]. rewrite Hretry. cbn [negb orb].
  destruct (attempt =? maxRetries) eqn:Eat.
  - apply Z.eqb_eq in Eat. cbn [fst snd]. rewrite length_app. cbn [length].
    split; [lia|by eexists].
  - cbn [Math_random spy_runtime]. destruct (Math_random w1) as [r0 w2].
    cbn [setTimeout_wait spy_runtime].
    destruct (IH (attempt + 1) e (setTimeout_wait
                (delayMs * (3 # 2) ^ attempt * (r0 * (3 # 10) + (85 # 100)))%Q
                w2) (log ++ [(Rejected e, w1)]) ltac:(lia)) as [Hlen Hrej].
    split; [|exact Hrej].
    rewrite Hlen, length_app. cbn [length]. lia.
Qed.

(** X12.  The bound of [maxRetries + 1] invocations is reached: when the
    operation fails every time with an error that is retryable where it
    surfaces, it is invoked exactly [maxRetries + 1] times before
    [withRetry] gives up with a rejection. *)
Theorem X12_retries_exhausted (w : W) :
  0 <= maxRetries ->
  always_retryable_failure rt operation ->
  let run := withRetry (spy_runtime rt) (spy operation) maxRetries delayMs
                       (w, []) in
  Z.of_nat (length run.2.2) = maxRetries + 1 /\
  exists ae, run.1 = Rejected ae.
Proof.
  intros Hmax Hfail run. subst run. unfold withRetry.
  destruct (withRetry_loop_exhaust (Z.to_nat (maxRetries + 1)) 0 None w []
              Hfail ltac:(lia)) as [Hlen Hrej].
  split; [|exact Hrej]. rewrite Hlen. cbn [length]. lia.
Qed.

(** X13.  [withRetry] hands on what its last invocation produced: it is
    fulfilled with a value exactly when the last invocation was fulfilled
    with that value, it stays pending exactly when the last invocation never
    settles, the world it leaves is the one in which the last invocation
    settled, and every invocation before the last was rejected with a
    retryable error. *)
Theorem X13_last_invocation_decides (w : W) :
  0 <= maxRetries ->
  let run := withRetry (spy_runtime rt) (spy operation) maxRetries delayMs
                       (w, []) in
  let log := run.2.2 in
  (forall v, run.1 = Fulfilled v <->
             exists wl, last log = Some (Fulfilled v, wl)) /\
  (run.1 = Pending <-> exists wl, last log = Some (Pending, wl)) /\
  (exists o, last log = Some (o, run.2.1)) /\
  (forall (i : nat) o wi,
      log !! i = Some (o, wi) -> (S i < length log)%nat ->
      exists e, o = Rejected e /\
                shouldRetryOperation (navigator_onLine wi) e = true).
Proof.
  intros Hmax run log.
  destruct (withRetry_loop_spy rt operation maxRetries delayMs
              (Z.to_nat (maxRetries + 1)) 0 None w [])
    as (ext & o & wl & Hrun & Hlast & Hlen & Hchain); [lia|lia|].
  assert (Hlog : log = ext) by (subst log run; unfold withRetry; by rewrite Hrun).
  assert (Hres : run.1 = final_settlement rt (o, wl))
    by (subst run; unfold withRetry; by rewrite Hrun).
  assert (Hw : run.2.1 = wl)
    by (subst run; unfold withRetry; by rewrite Hrun).
  rewrite Hlog, Hres, Hw, Hlast. repeat split.
  - intros Hv. destruct o as [v'|e|]; cbn in Hv; [|discriminate..].
    injection Hv as ->. by exists wl.
  - intros [wl' Hl]. by injection Hl as -> _.
  - intros Hp. destruct o as [v'|e|]; cbn in Hp; [discriminate..|].
    by exists wl.
  - intros [wl' Hl]. by injection Hl as -> _.
  - by exists o.
  - exact Hchain.
Qed.

End RetryExtras.

Section RetryExtrasRuns.
Import ErrorHandler.

(** X10, a scripted run: the gateway error is met while offline; the
    success that would follow is never asked for. *)
Lemma X10_offline_failure_not_retried_witness :
  withRetry script_runtime script_operation 3 1000
    (mkScript false [Rejected (Some (mkError None (Some 503) None false));
                     Fulfilled 1%nat])
  = (Rejected (createAppError false
                 (Some (mkError None (Some 503) None false)) None),
     mkScript false [Fulfilled 1%nat]).
Proof.
  exact (proj1 (X10_offline_failure_not_retried script_runtime
                  script_operation 3 1000
                  (mkScript false
                     [Rejected (Some (mkError None (Some 503) None false));
                      Fulfilled 1%nat])
                  (mkScript false [Fulfilled 1%nat])
                  (Some (mkError None (Some 503) None false))
                  ltac:(lia) eq_refl eq_refl)).
Defined.

(** X11, a scripted run with [maxRetries = -1]: the script is not
    consumed. *)
Lemma X11_negative_maxRetries_witness :
  withRetry script_runtime script_operation (-1) 1000
    (mkScript true [Fulfilled 1%nat])
  = (Rejected (createAppError true None None),
     mkScript true [Fulfilled 1%nat]).
Proof.
  exact (proj1 (X11_negative_maxRetries script_runtime script_operation
                  (-1) 1000 (mkScript true [Fulfilled 1%nat]) ltac:(lia))).
Defined.

(** X12, a service that stays unavailable, [maxRetries = 2]: three
    invocations. *)
Lemma X12_retries_exhausted_witness :
  Z.of_nat (length (withRetry (spy_runtime counter_runtime)
                      (spy unavailable_operation) 2 1000 (0%nat, [])).2.2)
  = 3.
Proof.
  assert (Hfail : always_retryable_failure counter_runtime
                    unavailable_operation).
  { intros w. eexists _, _. split; reflexivity. }
  exact (proj1 (X12_retries_exhausted counter_runtime unavailable_operation
                  2 1000 0%nat ltac:(lia) Hfail)).
Defined.

(** X13, the script of C2 with the validation error removed: the success
    comes at the second invocation and is handed on. *)
Lemma X13_last_invocation_decides_witness :
  (withRetry (spy_runtime script_runtime) (spy script_operation) 3 1000
     (mkScript true [Rejected (Some (mkError None (Some 503) None false));
                     Fulfilled 7%nat], [])).1
  = Fulfilled 7%nat.
Proof.
  apply (proj1 (X13_last_invocation_decides script_runtime script_operation
                  3 1000
                  (mkScript true
                     [Rejected (Some (mkError None (Some 503) None false));
                      Fulfilled 7%nat])
                  ltac:(lia))).
  eexists. reflexivity.
Defined.

End RetryExtrasRuns.

(* ===================================================================== *)
(** * Further properties of the lifecycle stage deriver                   *)
(* ===================================================================== *)

Section StageExtras.
Import CustomerStage.

Lemma elem_push_if (s x : CustomerStage) (b : bool) (l : list CustomerStage) :
  s ∈ push_if b x l <-> s ∈ l \/ (b = true /\ s = x).
Proof.
  unfold push_if. destruct b.
  - rewrite elem_of_app, list_elem_of_singleton. split.
    + intros [H|H]; [by left|by right].
    + intros [H|[_ H]]; [by left|by right].
  - split; [by left|]. intros [H|[H _]]; [done|discriminate].
Qed.

Lemma rule_order_NoDup : NoDup rule_order.
Proof.
  unfold rule_order.
  repeat (apply NoDup_cons; split;
          [intros H; repeat (apply elem_of_cons in H as [H|H];
                             [discriminate|]); by apply elem_of_nil in H|]).
  apply NoDup_nil_2.
Qed.

(** X14.  Each stage is reported exactly when neither exit is taken and
    its own rule fires, and no stage is reported twice. *)
Theorem X14_stage_membership (customerId : string) (needsEstimate : bool)
    (estimates : list Estimate) (jobs : list Job) (invoices : list Invoice) :
  let stages :=
    useCustomerStage customerId needsEstimate estimates jobs invoices in
  let live := negb (completedAllStages customerId jobs invoices)
              && negb (hasRejectedEstimateOnly customerId estimates) in
  (EstimatesQueue ∈ stages <-> live && needsEstimate = true) /\
  (PendingPayment ∈ stages <->
     live && hasPendingPayment customerId invoices = true) /\
  (JobScheduled ∈ stages <->
     live && hasScheduledJob customerId jobs = true) /\
  (ScheduledEstimate ∈ stages <->
     live && hasScheduledEstimateVisit customerId jobs = true) /\
  (PendingEstimate ∈ stages <->
     live && hasPendingEstimate customerId estimates = true) /\
  (JobsQueue ∈ stages <->
     live && hasApprovedEstimate customerId estimates = true) /\
  (NeedsInvoice ∈ stages <->
     live && hasCompletedJob customerId jobs invoices = true) /\
  NoDup stages.
Proof.
  intros stages live. subst stages live.
  assert (Hnd : NoDup (useCustomerStage customerId needsEstimate estimates
                         jobs invoices)).
  { eapply sublist_NoDup; [apply rule_order_NoDup|].
    unfold useCustomerStage.
    destruct (completedAllStages _ _ _); [apply sublist_nil_l|].
    destruct (hasRejectedEstimateOnly _ _); [apply sublist_nil_l|].
    apply pushes_in_rule_order. }
  unfold useCustomerStage in Hnd |- *.
  destruct (completedAllStages customerId jobs invoices);
    cbn [negb andb];
    [repeat split; try (intros H; by apply elem_of_nil in H);
     try discriminate; exact Hnd|].
  destruct (hasRejectedEstimateOnly customerId estimates);
    cbn [negb andb];
    [repeat split; try (intros H; by apply elem_of_nil in H);
     try discriminate; exact Hnd|].
  rewrite !elem_push_if, !elem_of_nil.
  repeat split; try exact Hnd;
    try (intros H; decompose [or and] H;
         first [assumption | discriminate | contradiction]);
    intros H; tauto.
Qed.

Lemma filter_idem {A} (p : A -> bool) (l : list A) :
  List.filter p (List.filter p l) = List.filter p l.
Proof. symmetry. by apply filter_restrict. Qed.

Lemma existsb_ext_In {A} (f g : A -> bool) (l : list A) :
  (forall x, In x l -> f x = g x) -> existsb f l = existsb g l.
Proof.
  intros H. induction l as [|x l IH]; [done|].
  cbn [existsb]. rewrite (H x (or_introl eq_refl)).
  rewrite IH; [done|]. intros y Hy. apply H. by right.
Qed.

Lemma existsb_restrict_In {A} (p f : A -> bool) (l : list A) :
  (forall x, In x l -> f x = true -> p x = true) ->
  existsb f l = existsb f (List.filter p l).
Proof.
  intros Himp. induction l as [|x l IH]; [done|].
  cbn [existsb List.filter].
  rewrite IH by (intros y Hy; apply Himp; by right).
  destruct (p x) eqn:Ep; [done|].
  destruct (f x) eqn:Ef; [|done].
  apply (Himp x (or_introl eq_refl)) in Ef. congruence.
Qed.

(** X15.  The derivation for one customer ignores the estimates and the
    jobs of every other customer.  It ignores the invoices of other
    customers as well, provided none of them refers to a job of this
    customer (the needs-invoice rule looks for a matching invoice among all
    invoices, not only the customer's own). *)
Theorem X15_other_customers_ignored (customerId : string)
    (needsEstimate : bool) (estimates : list Estimate) (jobs : list Job)
    (invoices : list Invoice) :
  let own_jobs :=
    List.filter (fun j => JS.seq (j_customer_id j) customerId) jobs in
  useCustomerStage customerId needsEstimate estimates jobs invoices
  = useCustomerStage customerId needsEstimate
      (customerEstimates customerId estimates) own_jobs invoices /\
  ((forall i j, In i invoices -> In j jobs ->
       i_customer_id i <> customerId -> j_customer_id j = customerId ->
       invoice_for j i = false) ->
   useCustomerStage customerId needsEstimate estimates jobs invoices
   = useCustomerStage customerId needsEstimate estimates jobs
       (customerInvoices customerId invoices)).
Proof.
  intros own_jobs. split.
  - assert (Hj : customerJobs customerId own_jobs
                 = customerJobs customerId jobs).
    { symmetry. apply filter_restrict. intros x Hx.
      by apply andb_prop in Hx as [? _]. }
    assert (He : customerEstimates customerId
                   (customerEstimates customerId estimates)
                 = customerEstimates customerId estimates)
      by apply filter_idem.
    assert (E1 : completedAllStages customerId own_jobs invoices
                 = completedAllStages customerId jobs invoices).
    { unfold completedAllStages, allJobsHaveInvoices. by rewrite Hj. }
    assert (E2 : hasRejectedEstimateOnly customerId
                   (customerEstimates customerId estimates)
                 = hasRejectedEstimateOnly customerId estimates).
    { unfold hasRejectedEstimateOnly. by rewrite He. }
    assert (E3 : hasScheduledJob customerId own_jobs
                 = hasScheduledJob customerId jobs).
    { symmetry. apply existsb_restrict. intros x Hx.
      apply andb_prop in Hx as [Hx _]. by apply andb_prop in Hx as [? _]. }
    assert (E4 : hasScheduledEstimateVisit customerId own_jobs
                 = hasScheduledEstimateVisit customerId jobs).
    { symmetry. apply existsb_restrict. intros x Hx.
      apply andb_prop in Hx as [Hx _]. by apply andb_prop in Hx as [? _]. }
    assert (E5 : hasPendingEstimate customerId
                   (customerEstimates customerId estimates)
                 = hasPendingEstimate customerId estimates).
    { symmetry. apply existsb_restrict. intros x Hx.
      by apply andb_prop in Hx as [? _]. }
    assert (E6 : hasApprovedEstimate customerId
                   (customerEstimates customerId estimates)
                 = hasApprovedEstimate customerId estimates).
    { symmetry. apply existsb_restrict. intros x Hx.
      by apply andb_prop in Hx as [? _]. }
    assert (E7 : hasCompletedJob customerId own_jobs invoices
                 = hasCompletedJob customerId jobs invoices).
    { symmetry. apply existsb_restrict. intros x Hx.
      apply andb_prop in Hx as [Hx _]. apply andb_prop in Hx as [Hx _].
      by apply andb_prop in Hx as [? _]. }
    unfold useCustomerStage. by rewrite E1, E2, E3, E4, E5, E6, E7.
  - intros Hforeign.
    assert (Hi : customerInvoices customerId
                   (customerInvoices customerId invoices)
                 = customerInvoices customerId invoices)
      by apply filter_idem.
    assert (E1 : completedAllStages customerId jobs
                   (customerInvoices customerId invoices)
                 = completedAllStages customerId jobs invoices).
    { unfold completedAllStages, allJobsHaveInvoices, allInvoicesPaid.
      by rewrite Hi. }
    assert (E2 : hasPendingPayment customerId
                   (customerInvoices customerId invoices)
                 = hasPendingPayment customerId invoices).
    { symmetry. apply existsb_restrict. intros x Hx.
      by apply andb_prop in Hx as [? _]. }
    assert (E3 : hasCompletedJob customerId jobs
                   (customerInvoices customerId invoices)
                 = hasCompletedJob customerId jobs invoices).
    { symmetry. apply existsb_ext_In. intros j Hj.
      destruct (JS.seq (j_customer_id j) customerId) eqn:Ec; [|done].
      apply seq_true in Ec. do 2 f_equal.
      apply existsb_restrict_In. intros i Hin Hfor.
      destruct (JS.seq (i_customer_id i) customerId) eqn:Eic; [done|].
      assert (Hne : i_customer_id i <> customerId).
      { intros Heq. apply seq_true in Heq. congruence. }
      rewrite (Hforeign i j Hin Hj Hne Ec) in Hfor. discriminate. }
    unfold useCustomerStage. by rewrite E1, E2, E3.
Qed.

(** X15, concrete snapshots: a second customer's paid invoice for its own
    job does not disturb the first customer's stages. *)
Lemma X15_other_customers_ignored_witness :
  let jobs := [ mkJob "j1" "c1" "Fix leak" "completed";
                mkJob "j2" "c2" "Paint fence" "completed" ] in
  let invoices := [ mkInvoice "i2" "c2" (Some "j2"%string) "paid" ] in
  useCustomerStage "c1" false [] jobs invoices
  = useCustomerStage "c1" false [] jobs [].
Proof.
  intros jobs invoices.
  apply (proj2 (X15_other_customers_ignored "c1" false [] jobs invoices)).
  intros i j [<-|[]] [<-|[<-|[]]] _ Hc; [reflexivity|discriminate Hc].
Defined.

(** The proviso of X15 is needed: an invoice filed under another customer
    but referring to this customer's completed job hides Needs Invoice. *)
Example foreign_invoice_hides_needs_invoice :
  let jobs := [ mkJob "j1" "c1" "Fix leak" "completed" ] in
  useCustomerStage "c1" false [] jobs
    [ mkInvoice "i9" "c2" (Some "j1"%string) "draft" ] = [] /\
  useCustomerStage "c1" false [] jobs [] = [NeedsInvoice].
Proof. split; reflexivity. Qed.

(** X16.  A customer has no stage (is inactive) exactly when the
    completion exit applies, or the rejected-only exit applies, or none of
    the seven rules fires. *)
Theorem X16_inactive_iff (customerId : string) (needsEstimate : bool)
    (estimates : list Estimate) (jobs : list Job) (invoices : list Invoice) :
  useCustomerStage customerId needsEstimate estimates jobs invoices = [] <->
  completedAllStages customerId jobs invoices = true \/
  hasRejectedEstimateOnly customerId estimates = true \/
  (needsEstimate = false /\
   hasPendingPayment customerId invoices = false /\
   hasScheduledJob customerId jobs = false /\
   hasScheduledEstimateVisit customerId jobs = false /\
   hasPendingEstimate customerId estimates = false /\
   hasApprovedEstimate customerId estimates = false /\
   hasCompletedJob customerId jobs invoices = false).
Proof.
  unfold useCustomerStage.
  destruct (completedAllStages customerId jobs invoices); [by split; [left|]|].
  destruct (hasRejectedEstimateOnly customerId estimates);
    [by split; [right; left|]|].
  destruct needsEstimate, (hasPendingPayment customerId invoices),
    (hasScheduledJob customerId jobs),
    (hasScheduledEstimateVisit customerId jobs),
    (hasPendingEstimate customerId estimates),
    (hasApprovedEstimate customerId estimates),
    (hasCompletedJob customerId jobs invoices);
    cbn [push_if app];
    (split; [try discriminate; intros _; right; right; by repeat split
            |intros [H|[H|H]]; try discriminate H; try reflexivity;
             decompose [and] H; discriminate]).
Qed.

End StageExtras.

(* ===================================================================== *)
(** * Properties of the stage card and of the customers page filter       *)
(* ===================================================================== *)

Section CardExtras.
Import CustomerStage StageCard.

Lemma byCategory_cons (c : StageCategory) (s : CustomerStage)
    (l : list CustomerStage) :
  byCategory c (s :: l)
  = if bool_decide (category s = c) then s :: byCategory c l
    else byCategory c l.
Proof. reflexivity. Qed.

Lemma byCategory_app (c : StageCategory) (l1 l2 : list CustomerStage) :
  byCategory c (l1 ++ l2) = byCategory c l1 ++ byCategory c l2.
Proof. apply List.filter_app. Qed.

Lemma byCategory_twice (c c' : StageCategory) (l : list CustomerStage) :
  byCategory c (byCategory c' l)
  = if bool_decide (c = c') then byCategory c l else [].
Proof.
  induction l as [|s l IH]; [by case_bool_decide|].
  rewrite !byCategory_cons.
  destruct (bool_decide (category s = c')) eqn:E1.
  - apply bool_decide_eq_true in E1. rewrite byCategory_cons, IH.
    subst c'. destruct (bool_decide (category s = c)) eqn:E2.
    + apply bool_decide_eq_true in E2. subst c.
      by rewrite bool_decide_eq_true_2.
    + apply bool_decide_eq_false in E2.
      rewrite (bool_decide_eq_false_2 (c = category s)); [done|congruence].
  - rewrite IH. apply bool_decide_eq_false in E1.
    case_bool_decide as E3; [|done]. subst c'.
    by rewrite bool_decide_eq_false_2.
Qed.

Lemma groupedStages_perm (stages : list CustomerStage) :
  groupedStages stages ≡ₚ stages.
Proof.
  unfold groupedStages. induction stages as [|s l IH]; [done|].
  rewrite !byCategory_cons.
  destruct s as [lb ic bg tx []]; cbn [category];
    repeat (case_bool_decide; try discriminate; try congruence);
    cbn [app].
  - by constructor.
  - rewrite <- Permutation_middle. by constructor.
  - rewrite app_assoc, <- Permutation_middle, <- app_assoc.
    by constructor.
Qed.

(** X17.  Grouping loses and duplicates nothing: [groupedStages] is a
    permutation of the stages it is given; it keeps the order of the stages
    inside each category; and grouping an already grouped list changes
    nothing. *)
Theorem X17_grouping_is_stable_permutation (stages : list CustomerStage) :
  groupedStages stages ≡ₚ stages /\
  (forall c, byCategory c (groupedStages stages) = byCategory c stages) /\
  groupedStages (groupedStages stages) = groupedStages stages.
Proof.
  pose proof (groupedStages_perm stages) as Hperm.
  assert (Hcat : forall c, byCategory c (groupedStages stages)
                           = byCategory c stages).
  { intros c. unfold groupedStages.
    rewrite !byCategory_app, !byCategory_twice.
    destruct c; cbn; by rewrite ?app_nil_r. }
  split; [exact Hperm|]. split; [exact Hcat|].
  unfold groupedStages at 1. by rewrite !Hcat.
Qed.

(** X18.  With [n >= 1] stages and an index in [0, n), both pagination
    buttons keep the index in [0, n); they wrap around at the two ends;
    and each undoes the other. *)
Theorem X18_pagination_round_trip (n i : Z) :
  0 <= i < n ->
  0 <= handleNextStage n i < n /\
  0 <= handlePreviousStage n i < n /\
  handleNextStage n i = (if i =? n - 1 then 0 else i + 1) /\
  handlePreviousStage n i = (if i =? 0 then n - 1 else i - 1) /\
  handlePreviousStage n (handleNextStage n i) = i /\
  handleNextStage n (handlePreviousStage n i) = i.
Proof.
  intros Hi.
  assert (Hnext : forall j, 0 <= j < n ->
            handleNextStage n j = (if j =? n - 1 then 0 else j + 1)).
  { intros j Hj. unfold handleNextStage. destruct (j =? n - 1) eqn:E.
    - apply Z.eqb_eq in E. replace (j + 1) with n by lia.
      apply Z.rem_same. lia.
    - apply Z.eqb_neq in E. apply Z.rem_small. lia. }
  assert (Hprev : forall j, 0 <= j < n ->
            handlePreviousStage n j = (if j =? 0 then n - 1 else j - 1)).
  { intros j Hj. unfold handlePreviousStage. destruct (j =? 0) eqn:E.
    - apply Z.eqb_eq in E. subst j. replace (0 - 1 + n) with (n - 1) by lia.
      apply Z.rem_small. lia.
    - apply Z.eqb_neq in E. rewrite Z.rem_mod_nonneg by lia.
      replace (j - 1 + n) with (j - 1 + 1 * n) by lia.
      rewrite Z.mod_add by lia. apply Z.mod_small. lia. }
  assert (Rn : 0 <= handleNextStage n i < n).
  { rewrite Hnext by done. destruct (i =? n - 1) eqn:E; [lia|].
    apply Z.eqb_neq in E. lia. }
  assert (Rp : 0 <= handlePreviousStage n i < n).
  { rewrite Hprev by done. destruct (i =? 0) eqn:E; [lia|].
    apply Z.eqb_neq in E. lia. }
  split; [exact Rn|]. split; [exact Rp|].
  split; [by apply Hnext|]. split; [by apply Hprev|]. split.
  - rewrite (Hprev _ Rn), (Hnext i Hi).
    destruct (i =? n - 1) eqn:E.
    + apply Z.eqb_eq in E. cbn. lia.
    + apply Z.eqb_neq in E. destruct (i + 1 =? 0) eqn:E2; [|lia].
      apply Z.eqb_eq in E2. lia.
  - rewrite (Hnext _ Rp), (Hprev i Hi).
    destruct (i =? 0) eqn:E.
    + apply Z.eqb_eq in E. rewrite Z.eqb_refl. lia.
    + apply Z.eqb_neq in E. destruct (i - 1 =? n - 1) eqn:E2; [|lia].
      apply Z.eqb_eq in E2. lia.
Qed.

(** X18, three stages: forward from the last index wraps to the first, and
    back again. *)
Lemma X18_pagination_round_trip_witness :
  handleNextStage 3 2 = 0 /\ handlePreviousStage 3 (handleNextStage 3 2) = 2.
Proof.
  destruct (X18_pagination_round_trip 3 2 ltac:(lia))
    as (_ & _ & Hn & _ & Hpn & _).
  split; [exact Hn|exact Hpn].
Defined.

Ltac sub_card :=
  repeat first [ apply sublist_nil | apply sublist_skip | apply sublist_cons ].

(** X19.  The card shows the stages the hook derives, grouped in one fixed
    order (Estimates Queue, Scheduled Estimate, Pending Estimate, Job
    Scheduled, Jobs Queue, Pending Payment, Needs Invoice); it renders
    nothing exactly when the hook derives no stage; and with more than one
    stage and an index in range it shows a stage and a counter between 1
    and the number of stages. *)
Theorem X19_card_of_hook (customerId : string) (needsEstimate : bool)
    (estimates : list Estimate) (jobs : list Job) (invoices : list Invoice)
    (index : Z) :
  let stages :=
    useCustomerStage customerId needsEstimate estimates jobs invoices in
  groupedStages stages `sublist_of` card_order /\
  (render stages index = RenderNull <-> stages = []) /\
  (1 < Z.of_nat (length stages) -> 0 <= index < Z.of_nat (length stages) ->
   exists s, s ∈ stages /\
     render stages index
     = RenderPaged (Some s) (index + 1) (Z.of_nat (length stages))).
Proof.
  intros stages.
  pose proof (groupedStages_perm stages) as Hperm.
  assert (Hlen : length (groupedStages stages) = length stages)
    by (by rewrite Hperm).
  split; [|split].
  - subst stages. unfold useCustomerStage.
    destruct (completedAllStages _ _ _); [apply sublist_nil_l|].
    destruct (hasRejectedEstimateOnly _ _); [apply sublist_nil_l|].
    destruct needsEstimate, (hasPendingPayment _ _), (hasScheduledJob _ _),
      (hasScheduledEstimateVisit _ _), (hasPendingEstimate _ _),
      (hasApprovedEstimate _ _), (hasCompletedJob _ _ _);
      vm_compute; sub_card.
  - unfold render. rewrite Hlen.
    destruct stages as [|s l]; [done|]. cbn [length].
    split; [|discriminate].
    destruct (Z.of_nat (S (length l)) =? 0) eqn:E;
      [apply Z.eqb_eq in E; lia|].
    by destruct (Z.of_nat (S (length l)) >? 1).
  - intros Hmany Hidx. unfold render. rewrite Hlen.
    destruct (Z.of_nat (length stages) =? 0) eqn:E0;
      [apply Z.eqb_eq in E0; lia|].
    destruct (Z.of_nat (length stages) >? 1) eqn:E1;
      [|assert ((Z.of_nat (length stages) >? 1) = true)
          by (apply Z.gtb_lt; lia); congruence].
    destruct (index <? 0) eqn:E2; [apply Z.ltb_lt in E2; lia|].
    destruct (lookup_lt_is_Some_2 (groupedStages stages) (Z.to_nat index))
      as [s Hs]; [rewrite Hlen; lia|].
    exists s. split; [|by rewrite Hs].
    rewrite <- Hperm. by eapply list_elem_of_lookup_2.
Qed.

(** X19, the customer of C5 at index 1: the card lists Pending Estimate
    before Job Scheduled and shows the latter with the counter 2/2. *)
Lemma X19_card_of_hook_witness :
  let stages := useCustomerStage "c1" false
                  [mkEstimate "e1" "c1" "pending"]
                  [mkJob "j1" "c1" "Replace water heater" "scheduled"] [] in
  groupedStages stages = [PendingEstimate; JobScheduled] /\
  render stages 1 = RenderPaged (Some JobScheduled) 2 2.
Proof.
  intros stages. split; [reflexivity|].
  pose proof (proj2 (proj2 (X19_card_of_hook "c1" false
                              [mkEstimate "e1" "c1" "pending"]
                              [mkJob "j1" "c1" "Replace water heater" "scheduled"]
                              [] 1))) as H.
  destruct H as (s & _ & Hr);
    [vm_compute; reflexivity
    |vm_compute; split; [discriminate|reflexivity]|].
  reflexivity.
Defined.

End CardExtras.

Section PageExtras.
Import CustomerStage CustomersPage.

Ltac label_listed :=
  solve [repeat first [apply list_elem_of_here | apply list_elem_of_further]].

(** X20.  The customers page and the customer card agree on who is
    active: [isCustomerActive(id)] holds exactly when the hook, given the
    customer's needs-estimate flag, derives at least one stage. *)
Theorem X20_active_iff_card_has_stage (customers : list Customer)
    (estimates : list Estimate) (jobs : list Job) (invoices : list Invoice)
    (customerId : string) :
  isCustomerActive customers estimates jobs invoices customerId = true <->
  useCustomerStage customerId (needsEstimate_of customers customerId)
                   estimates jobs invoices <> [].
Proof.
  unfold isCustomerActive, getCustomerServiceFlow, useCustomerStage.
  destruct (completedAllStages customerId jobs invoices);
    [by split|].
  destruct (hasRejectedEstimateOnly customerId estimates); [by split|].
  destruct (needsEstimate_of customers customerId),
    (hasPendingPayment customerId invoices),
    (hasScheduledJob customerId jobs),
    (hasScheduledEstimateVisit customerId jobs),
    (hasPendingEstimate customerId estimates),
    (hasApprovedEstimate customerId estimates),
    (hasCompletedJob customerId jobs invoices);
    cbn [push_if push_flow app]; split; (done || discriminate).
Qed.

(** X21.  The value the page filters on is either ['none'] or the id of a
    filter entry whose label is the label of one of the stages the hook
    derives for the same customer; and an active customer flagged as
    needing an estimate is always filed under ['needs_estimate']. *)
Theorem X21_filter_value_is_a_card_stage (customers : list Customer)
    (estimates : list Estimate) (jobs : list Job) (invoices : list Invoice)
    (customerId : string) :
  let flow :=
    getCustomerServiceFlow customers estimates jobs invoices customerId in
  let stages :=
    useCustomerStage customerId (needsEstimate_of customers customerId)
                     estimates jobs invoices in
  (flow = "none"%string \/
   exists l, filter_label flow = Some l /\ l ∈ map label stages) /\
  (needsEstimate_of customers customerId = true -> stages <> [] ->
   flow = "needs_estimate"%string).
Proof.
  intros flow stages. subst flow stages.
  unfold getCustomerServiceFlow, useCustomerStage.
  destruct (completedAllStages customerId jobs invoices);
    [split; [by left|done]|].
  destruct (hasRejectedEstimateOnly customerId estimates);
    [split; [by left|done]|].
  destruct (needsEstimate_of customers customerId),
    (hasPendingPayment customerId invoices),
    (hasScheduledJob customerId jobs),
    (hasScheduledEstimateVisit customerId jobs),
    (hasPendingEstimate customerId estimates),
    (hasApprovedEstimate customerId estimates),
    (hasCompletedJob customerId jobs invoices);
    cbn [push_if push_flow app];
    (split; [|first [done | discriminate]]);
    first [ by left
          | right; eexists; split; [vm_compute; reflexivity|];
            vm_compute; label_listed ].
Qed.

(** X21, a concrete page: the customer is flagged, has a draft invoice and
    a scheduled job; the page files the customer under needs_estimate. *)
Lemma X21_filter_value_is_a_card_stage_witness :
  getCustomerServiceFlow
    [mkCustomer "c1" true] []
    [mkJob "j1" "c1" "Fix leak" "scheduled"]
    [mkInvoice "i1" "c1" None "draft"] "c1"
  = "needs_estimate"%string.
Proof.
  apply (proj2 (X21_filter_value_is_a_card_stage
                  [mkCustomer "c1" true] []
                  [mkJob "j1" "c1" "Fix leak" "scheduled"]
                  [mkInvoice "i1" "c1" None "draft"] "c1"));
    [reflexivity|discriminate].
Defined.

(** The page and the card need not agree on which stage comes first: with
    a scheduled job and a completed job awaiting its invoice, the card
    starts with Job Scheduled while the page files the customer under
    needs_invoice. *)
Example page_and_card_first_stage_differ :
  let jobs := [ mkJob "j1" "c1" "Fix leak" "scheduled";
                mkJob "j2" "c1" "Paint fence" "completed" ] in
  head (useCustomerStage "c1" false [] jobs []) = Some JobScheduled /\
  getCustomerServiceFlow [] [] jobs [] "c1" = "needs_invoice"%string.
Proof. split; reflexivity. Qed.

End PageExtras.

(* ===================================================================== *)
(** * Further properties of the jobs store                                *)
(* ===================================================================== *)

Section FetchExtras.
Import OptimizedFetch ErrorHandler JobStore.
Context {Job NewJob Patch W : Type}.
Context {col : Collaborators Job NewJob Patch W}.

Ltac run_fetch :=
  unfold fetchJobs, bind, try_catch, shouldFetch, set, reading, access,
    console_error, on_ledger, data_or_throw, throw, ret.

(** X22.  [fetchJobs] always completes normally, forced or not: a failure
    of the remote select is absorbed.  Whenever the fetch was permitted,
    the store ends with [loading = false] and the ledger entry for 'jobs'
    ends not in flight, so a later check is never blocked by a stale
    in-flight flag.  Entries of other keys are not touched. *)
Theorem X22_fetchJobs_settles (app : App Job W) (force : bool) :
  let r := fetchJobs force app in
  r.1 = Normal tt /\
  ((shouldFetchData (Date_now (world app)) STORE_KEY force (fetchCache app)).1
   = true ->
   loading (state r.2) = false /\
   exists e, fetchCache r.2 !! STORE_KEY = Some e /\ inProgress e = false) /\
  (forall key, key ≠ STORE_KEY ->
     fetchCache r.2 !! key = fetchCache app !! key).
Proof.
  intros r. subst r. run_fetch.
  pose proof (shouldFetchData_other (Date_now (world app)) STORE_KEY) as Hoth.
  specialize (fun k => Hoth k force (fetchCache app)).
  destruct (shouldFetchData (Date_now (world app)) STORE_KEY force
              (fetchCache app)) as [go c] eqn:Esf.
  cbn [fst snd] in *. destruct go; cbn.
  2: { split; [done|]. split; [discriminate|]. intros k Hk. by apply Hoth. }
  destruct (loadFromIndexedDB (world app)) as [[ok1 local1] w1]. cbn.
  destruct ok1; cbn;
    destruct (supabase_select w1) as [[e|data [e|]] w2]; cbn;
    try (destruct (loadFromIndexedDB w2) as [[ok2 local2] w3]; cbn;
         destruct ok2; cbn);
    try (destruct data as [[|d ds]|]; cbn);
    (split; [done|]; split;
     [intros _; split; [done|]; eexists; split;
      [unfold markFetchComplete, markFetchFailed; apply lookup_insert_eq|done]
     |intros k Hk; unfold markFetchComplete, markFetchFailed;
      rewrite lookup_insert_ne by done; by apply Hoth]).
Qed.

(** X23.  A permitted fetch whose select succeeds replaces the collection
    by the rows received (by the empty collection when [data] is null),
    clears the error, writes the mirror only when at least one row was
    received, and stamps the ledger entry with the clock at completion. *)
Theorem X23_fetch_success (app : App Job W) (force : bool)
    (data : option (list Job)) :
  (shouldFetchData (Date_now (world app)) STORE_KEY force (fetchCache app)).1
  = true ->
  (supabase_select (loadFromIndexedDB (world app)).2).1 = Replied data None ->
  let r := fetchJobs force app in
  state r.2 = mkState (default [] data) false None /\
  fetchCache r.2 !! STORE_KEY = Some (mkEntry (Date_now (world r.2)) false) /\
  trace r.2
  = trace app ++ [MirrorLoad; NetSelect]
    ++ (if bool_decide (default [] data = []) then [] else [MirrorSave]).
Proof.
  intros Hgo Hsel r. subst r. run_fetch.
  destruct (shouldFetchData (Date_now (world app)) STORE_KEY force
              (fetchCache app)) as [go c] eqn:Esf.
  cbn [fst] in Hgo. subst go. cbn.
  destruct (loadFromIndexedDB (world app)) as [[ok1 local1] w1]. cbn in *.
  destruct ok1; cbn;
    destruct (supabase_select w1) as [reply w2]; cbn in Hsel; subst reply;
    cbn; destruct data as [[|d ds]|]; cbn;
    (split; [done|]; split;
     [unfold markFetchComplete; apply lookup_insert_eq
     |by rewrite <- !app_assoc]).
Qed.

(** X24.  A permitted fetch whose select fails falls back on the mirror:
    if the mirror can be read its rows become the collection and the
    degraded-mode message is recorded, otherwise the collection is emptied
    and the connection message is recorded.  The ledger entry is left not
    in flight, stamped with the time at which the attempt started. *)
Theorem X24_fetch_failure_fallback (app : App Job W) (force : bool)
    (e : ErrorObject) :
  (shouldFetchData (Date_now (world app)) STORE_KEY force (fetchCache app)).1
  = true ->
  let sel := supabase_select (loadFromIndexedDB (world app)).2 in
  fails_with sel.1 e ->
  let mirror := (loadFromIndexedDB sel.2).1 in
  let r := fetchJobs force app in
  r.1 = Normal tt /\
  state r.2
  = (if mirror.1
     then mkState mirror.2 false
            (Some "Using cached job data. Some information may not be up to date."%string)
     else mkState [] false
            (Some "Unable to load jobs. Please check your connection."%string)) /\
  fetchCache r.2 !! STORE_KEY
  = Some (mkEntry (Date_now (world app)) false) /\
  trace r.2 = trace app ++ [MirrorLoad; NetSelect; ConsoleError; MirrorLoad].
Proof.
  intros Hgo sel Hfail mirror r. subst r mirror sel. run_fetch.
  pose proof (shouldFetchData_true_inProgress
                (Date_now (world app)) STORE_KEY force (fetchCache app) Hgo)
    as Hstamp.
  destruct (shouldFetchData (Date_now (world app)) STORE_KEY force
              (fetchCache app)) as [go c] eqn:Esf.
  cbn [fst snd] in Hgo, Hstamp. subst go c. cbn.
  destruct (loadFromIndexedDB (world app)) as [[ok1 local1] w1]. cbn in *.
  destruct ok1; cbn;
    destruct (supabase_select w1) as [[e'|data [e'|]] w2]; cbn in Hfail;
    try done; subst e'; cbn;
    destruct (loadFromIndexedDB w2) as [[ok2 local2] w3]; cbn;
    destruct ok2; cbn;
    (split; [done|]; split; [done|]; split;
     [rewrite (fetchCache_get_own _ STORE_KEY
                 (mkEntry (Date_now (world app)) true))
        by apply lookup_insert_eq;
      apply lookup_insert_eq
     |by rewrite <- !app_assoc]).
Qed.

End FetchExtras.

Section MutationExtras.
Import OptimizedFetch ErrorHandler JobStore.
Context {Job NewJob Patch W : Type}.
Variable job_id : Job -> string.
Variable spread : Job -> Patch -> Job.
Variable with_id : NewJob -> string -> string -> Job.
Context {col : Collaborators Job NewJob Patch W}.

Ltac run_mutation :=
  unfold addJob, updateJob, deleteJob, queueChange, bind, try_catch, set,
    reading, access, console_error, on_ledger, data_or_throw, throw, ret;
  cbn.

Lemma invalidated_then_fetch (c : FetchCache) (now : Z) :
  invalidateCache STORE_KEY c !! STORE_KEY = None /\
  (shouldFetchData now STORE_KEY false (invalidateCache STORE_KEY c)).1 = true.
Proof.
  assert (H : invalidateCache STORE_KEY c !! STORE_KEY = None).
  { rewrite invalidateCache_lookup by discriminate. by case_decide. }
  split; [exact H|]. by rewrite shouldFetchData_absent.
Qed.

Ltac settle_success :=
  let Hn := fresh in
  intros Hn;
  first [ discriminate Hn
        | split; [reflexivity|]; split;
          [apply (invalidated_then_fetch _ 0)
          |let now := fresh in
           intros now; apply (invalidated_then_fetch _ now)] ].

Ltac settle_failure :=
  let e := fresh in
  let He := fresh in
  intros e He;
  first [ discriminate He | injection He as <-; split; reflexivity ].

Lemma updateJob_all_or_nothing (app : App Job W) (id : string)
    (updates : Patch) :
  let u := updateJob job_id spread id updates app in
  (u.1 = Normal tt ->
   state u.2 = mkState (patch_jobs job_id spread id updates (jobs (state app)))
                       false None /\
   fetchCache u.2 !! STORE_KEY = None /\
   forall now, (shouldFetchData now STORE_KEY false (fetchCache u.2)).1 = true) /\
  (forall e, u.1 = Throw e ->
   state u.2 = mkState (jobs (state app)) false (message e) /\
   fetchCache u.2 = fetchCache app).
Proof.
  intros u. subst u.
  unfold updateJob, queueChange, bind, try_catch, set, reading, access,
    console_error, on_ledger, data_or_throw, throw, ret.
  cbn -[shouldFetchData invalidateCache].
  destruct (onLine (world app)); cbn -[shouldFetchData invalidateCache].
  - destruct (supabase_update id updates (world app)) as [[e1|dt1 [e1|]] w1];
      cbn -[shouldFetchData invalidateCache];
      (split; [settle_success|settle_failure]).
  - destruct (syncManager_queueChange (Update id updates) (world app))
      as [[e1|] w1];
      cbn -[shouldFetchData invalidateCache];
      (split; [settle_success|settle_failure]).
Qed.

Lemma deleteJob_all_or_nothing (app : App Job W) (id : string) :
  let d := deleteJob job_id id app in
  (d.1 = Normal tt ->
   state d.2 = mkState (drop_job job_id id (jobs (state app))) false None /\
   fetchCache d.2 !! STORE_KEY = None /\
   forall now, (shouldFetchData now STORE_KEY false (fetchCache d.2)).1 = true) /\
  (forall e, d.1 = Throw e ->
   state d.2 = mkState (jobs (state app)) false (message e) /\
   fetchCache d.2 = fetchCache app).
Proof.
  intros d. subst d.
  unfold deleteJob, queueChange, bind, try_catch, set, reading, access,
    console_error, on_ledger, data_or_throw, throw, ret.
  cbn -[shouldFetchData invalidateCache].
  destruct (onLine (world app)); cbn -[shouldFetchData invalidateCache].
  - destruct (supabase_delete id (world app)) as [[e1|dt1 [e1|]] w1];
      cbn -[shouldFetchData invalidateCache];
      (split; [settle_success|settle_failure]).
  - destruct (syncManager_queueChange (Delete id) (world app))
      as [[e1|] w1];
      cbn -[shouldFetchData invalidateCache];
      (split; [settle_success|settle_failure]).
Qed.

(** X25.  [updateJob] and [deleteJob] are all-or-nothing.  When the
    returned promise is fulfilled, the collection has been patched (resp.
    filtered), [loading] and [error] are cleared and the ledger entry for
    'jobs' is gone, so the next unforced [fetchJobs] goes to the server.
    When it is rejected, the collection and the whole ledger are as before
    and the error's message is recorded.  This holds online and offline. *)
Theorem X25_update_delete_all_or_nothing (app : App Job W) (id : string)
    (updates : Patch) :
  let u := updateJob job_id spread id updates app in
  let d := deleteJob job_id id app in
  (u.1 = Normal tt ->
   state u.2 = mkState (patch_jobs job_id spread id updates (jobs (state app)))
                       false None /\
   fetchCache u.2 !! STORE_KEY = None /\
   forall now, (shouldFetchData now STORE_KEY false (fetchCache u.2)).1 = true) /\
  (forall e, u.1 = Throw e ->
   state u.2 = mkState (jobs (state app)) false (message e) /\
   fetchCache u.2 = fetchCache app) /\
  (d.1 = Normal tt ->
   state d.2 = mkState (drop_job job_id id (jobs (state app))) false None /\
   fetchCache d.2 !! STORE_KEY = None /\
   forall now, (shouldFetchData now STORE_KEY false (fetchCache d.2)).1 = true) /\
  (forall e, d.1 = Throw e ->
   state d.2 = mkState (jobs (state app)) false (message e) /\
   fetchCache d.2 = fetchCache app).
Proof.
  intros u d.
  destruct (updateJob_all_or_nothing app id updates) as [H1 H2].
  destruct (deleteJob_all_or_nothing app id) as [H3 H4].
  split; [exact H1|]. split; [exact H2|]. split; [exact H3|exact H4].
Qed.

Lemma temp_job_run (j : NewJob) (app : App Job W) :
  exists id created_at w',
    temp_job with_id j app
    = (Normal (with_id j id created_at),
       mkApp (state app) (fetchCache app) w' (trace app)).
Proof.
  unfold temp_job, bind, effect, ret. cbn.
  destruct (crypto_randomUUID (world app)) as [id w1]. cbn.
  destruct (Date_toISOString w1) as [ts w2]. cbn.
  by exists id, ts, w2.
Qed.

(** Building the temporary jobs touches neither the store, nor the ledger,
    nor the trace, and yields one job per input, in order. *)
Lemma mapM_temp_job (js : list NewJob) (app : App Job W) :
  exists temps w',
    mapM (temp_job with_id) js app
    = (Normal temps, mkApp (state app) (fetchCache app) w' (trace app)) /\
    Forall2 (fun j t => exists id created_at, t = with_id j id created_at)
            js temps.
Proof.
  revert app. induction js as [|j js IH]; intros app.
  - exists [], (world app). split; [by destruct app|constructor].
  - cbn [mapM]. destruct (temp_job_run j app) as (id & ts & w2 & Ht).
    unfold bind at 1. rewrite Ht.
    destruct (IH (mkApp (state app) (fetchCache app) w2 (trace app)))
      as (temps & w' & Hrun & Hall).
    unfold bind at 1. rewrite Hrun. cbn.
    exists (with_id j id ts :: temps), w'. split; [done|].
    constructor; [by eexists _, _|done].
Qed.

Lemma queueChange_run (c : Change Job Patch) (app : App Job W) :
  queueChange c app
  = let q := syncManager_queueChange c (world app) in
    (match q.1 with Some e => Throw e | None => Normal tt end,
     mkApp (state app) (fetchCache app) q.2 (trace app ++ [SyncQueue])).
Proof.
  unfold queueChange, bind, access, throw, ret. cbn.
  by destruct (syncManager_queueChange c (world app)) as [[e|] w1].
Qed.

Lemma forM_queue_cons (t : Job) (temps : list Job) (app : App Job W) :
  forM (t :: temps) (fun j => queueChange (Create j)) app
  = let q := syncManager_queueChange (Create t) (world app) in
    let app1 := mkApp (state app) (fetchCache app) q.2
                      (trace app ++ [SyncQueue]) in
    match q.1 with
    | Some e => (Throw e, app1)
    | None => forM temps (fun j => queueChange (Create j)) app1
    end.
Proof.
  cbn [forM]. unfold bind at 1. rewrite queueChange_run. cbn zeta.
  by destruct (syncManager_queueChange (Create t) (world app)) as [[e|] w1].
Qed.

(** Queueing jobs one by one: only queue accesses are made, one per job
    until the queue refuses one; store and ledger are not touched. *)
Lemma forM_queue (temps : list Job) (app : App Job W) :
  let r := forM temps (fun j => queueChange (Create j)) app in
  state r.2 = state app /\ fetchCache r.2 = fetchCache app /\
  exists n, (n <= length temps)%nat /\
            trace r.2 = trace app ++ replicate n SyncQueue /\
            (r.1 = Normal tt -> n = length temps).
Proof.
  revert app. induction temps as [|t temps IH]; intros app.
  - cbn. split; [done|]. split; [done|]. exists 0%nat. cbn.
    by rewrite app_nil_r.
  - cbn zeta. rewrite forM_queue_cons. cbn zeta.
    destruct (syncManager_queueChange (Create t) (world app)) as [[e|] w1];
      cbn [fst snd].
    + split; [done|]. split; [done|]. exists 1%nat. cbn.
      split; [lia|]. split; [done|]. discriminate.
    + destruct (IH (mkApp (state app) (fetchCache app) w1
                      (trace app ++ [SyncQueue])))
        as (Hs & Hc & n & Hn & Ht & Hok).
      cbn [state fetchCache trace] in Hs, Hc, Ht.
      split; [exact Hs|]. split; [exact Hc|].
      exists (S n). cbn [length replicate]. split; [lia|].
      split; [by rewrite Ht, <- app_assoc|].
      intros H. by rewrite Hok.
Qed.

(** The number of queue accesses of such a loop: one per job when every
    change is accepted, and at least one when a change is refused. *)
Lemma forM_queue_count (temps : list Job) (app : App Job W) :
  let r := forM temps (fun j => queueChange (Create j)) app in
  exists n, (n <= length temps)%nat /\
            trace r.2 = trace app ++ replicate n SyncQueue /\
            match r.1 with
            | Normal _ => n = length temps
            | Throw _ => (1 <= n)%nat
            end.
Proof.
  revert app. induction temps as [|t temps IH]; intros app.
  - cbn. exists 0%nat. cbn. by rewrite app_nil_r.
  - cbn zeta. rewrite forM_queue_cons. cbn zeta.
    destruct (syncManager_queueChange (Create t) (world app)) as [[e|] w1];
      cbn [fst snd].
    + exists 1%nat. cbn. split; [lia|]. split; [done|lia].
    + destruct (IH (mkApp (state app) (fetchCache app) w1
                      (trace app ++ [SyncQueue])))
        as (n & Hn & Ht & Hres).
      cbn [state fetchCache trace] in Ht.
      exists (S n). cbn [length replicate]. split; [lia|].
      split; [by rewrite Ht, <- app_assoc|].
      destruct (forM temps _ _).1; lia.
Qed.

Lemma replicate_not_network (n : nat) :
  Forall (fun ev => is_network ev = false) (replicate n SyncQueue).
Proof. induction n; cbn; by constructor. Qed.

(** X26.  [addJob] never rejects.  When it is fulfilled with jobs, exactly
    those jobs have been put in front of the collection, [loading] and
    [error] are cleared and the ledger entry for 'jobs' is gone; when it is
    fulfilled with [null], the collection is the one it started from and
    [loading] is reset.  This holds online and offline, for one record and
    for an array. *)
Theorem X26_addJob_outcomes (app : App Job W) (job : NewJob + list NewJob) :
  let r := addJob with_id job app in
  (exists result, r.1 = Normal result) /\
  (forall new, r.1 = Normal (Some new) ->
     state r.2 = mkState (new ++ jobs (state app)) false None /\
     fetchCache r.2 !! STORE_KEY = None) /\
  (r.1 = Normal None ->
     jobs (state r.2) = jobs (state app) /\ loading (state r.2) = false).
Proof.
  intros r. subst r.
  unfold addJob, bind, try_catch, set, reading, access, console_error,
    on_ledger, data_or_throw, throw, ret.
  cbn -[invalidateCache mapM forM queueChange temp_job].
  destruct (onLine (world app)); cbn -[invalidateCache mapM forM queueChange temp_job].
  - destruct job as [j|js]; cbn -[invalidateCache].
    + destruct (supabase_insert_single j (world app)) as [[e|dt [e|]] w1];
        cbn -[invalidateCache]; try destruct dt as [d|]; cbn -[invalidateCache];
        (split; [by eexists|]); (split; [|done || discriminate]);
        intros new Hn; first [discriminate Hn | injection Hn as <-];
        (split; [done|]); apply (invalidated_then_fetch _ 0).
    + destruct (supabase_insert_many js (world app)) as [[e|dt [e|]] w1];
        cbn -[invalidateCache]; try destruct dt as [d|]; cbn -[invalidateCache];
        (split; [by eexists|]); (split; [|done || discriminate]);
        intros new Hn; first [discriminate Hn | injection Hn as <-];
        (split; [done|]); apply (invalidated_then_fetch _ 0).
  - destruct job as [j|js]; cbn -[invalidateCache mapM forM queueChange temp_job].
    + destruct (temp_job_run j
                  (mkApp (mkState (jobs (state app)) true None)
                         (fetchCache app) (world app) (trace app)))
        as (id & ts & w1 & Ht).
      rewrite Ht. cbn -[invalidateCache queueChange].
      rewrite queueChange_run. cbn -[invalidateCache].
      destruct (syncManager_queueChange (Create (with_id j id ts)) w1)
        as [[e|] w2]; cbn -[invalidateCache];
        (split; [by eexists|]); (split; [|done || discriminate]);
        intros new Hn; first [discriminate Hn | injection Hn as <-];
        (split; [done|]); apply (invalidated_then_fetch _ 0).
    + destruct (mapM_temp_job js
                  (mkApp (mkState (jobs (state app)) true None)
                         (fetchCache app) (world app) (trace app)))
        as (temps & w1 & Hm & _).
      rewrite Hm. cbn -[invalidateCache forM queueChange].
      pose proof (forM_queue temps
                    (mkApp (mkState (jobs (state app)) true None)
                           (fetchCache app) w1 (trace app)))
        as (Hs & Hc & _).
      destruct (forM temps (fun j => queueChange (Create j)) _)
        as [[[]|e] app3]; cbn -[invalidateCache] in *;
        rewrite ?Hs, ?Hc; cbn -[invalidateCache];
        (split; [by eexists|]); (split; [|done || discriminate]);
        intros new Hn; first [discriminate Hn | injection Hn as <-];
        (split; [done|]); apply (invalidated_then_fetch _ 0).
Qed.

(** X27.  While the runtime is offline no mutation reaches the network:
    [updateJob] and [deleteJob] make exactly one sync-queue access and are
    fulfilled or rejected as the queue accepts or refuses the change (a
    refusal is logged to the console and rethrown).  [addJob] on [count]
    records (one, or the length of the array) makes [n <= count] accesses,
    all to the sync queue, and nothing else when it is fulfilled with jobs,
    in which case [n = count]; when it is fulfilled with [null] a change
    was refused, [n >= 1], and the accesses are followed by exactly one
    console log.  In particular nothing [addJob] does is a network
    access. *)
Theorem X27_offline_mutations_stay_local (app : App Job W) (id : string)
    (updates : Patch) (job : NewJob + list NewJob) :
  onLine (world app) = false ->
  let u := updateJob job_id spread id updates app in
  let d := deleteJob job_id id app in
  let a := addJob with_id job app in
  let qu := (syncManager_queueChange (Update id updates) (world app)).1 in
  let qd := (syncManager_queueChange (Delete id) (world app)).1 in
  let count := match job with inl _ => 1%nat | inr js => length js end in
  u.1 = match qu with Some e => Throw e | None => Normal tt end /\
  trace u.2 = trace app ++ SyncQueue ::
                match qu with Some _ => [ConsoleError] | None => [] end /\
  d.1 = match qd with Some e => Throw e | None => Normal tt end /\
  trace d.2 = trace app ++ SyncQueue ::
                match qd with Some _ => [ConsoleError] | None => [] end /\
  (exists n, (n <= count)%nat /\
     ((exists new, a.1 = Normal (Some new)) /\ n = count /\
        trace a.2 = trace app ++ replicate n SyncQueue
      \/
      a.1 = Normal None /\ (1 <= n)%nat /\
        trace a.2 = trace app ++ replicate n SyncQueue ++ [ConsoleError])) /\
  (exists ext, trace a.2 = trace app ++ ext /\
               Forall (fun ev => is_network ev = false) ext).
Proof.
  intros Hoff u d a qu qd count.
  assert (Hlocal : forall n tail,
            Forall (fun ev => is_network ev = false) tail ->
            trace a.2 = trace app ++ replicate n SyncQueue ++ tail ->
            exists ext, trace a.2 = trace app ++ ext /\
                        Forall (fun ev => is_network ev = false) ext).
  { intros n tail Htail Htr. eexists. split; [exact Htr|].
    apply Forall_app. split; [apply replicate_not_network|exact Htail]. }
  cut (exists n, (n <= count)%nat /\
         ((exists new, a.1 = Normal (Some new)) /\ n = count /\
            trace a.2 = trace app ++ replicate n SyncQueue
          \/
          a.1 = Normal None /\ (1 <= n)%nat /\
            trace a.2 = trace app ++ replicate n SyncQueue ++ [ConsoleError])).
  { intros Hexact. split; [|split; [|split; [|split; [|split]]]];
      [| | | |exact Hexact|].
    5: { destruct Hexact as (n & _ & [(_ & _ & Htr)|(_ & _ & Htr)]).
         - apply (Hlocal n []); [constructor|by rewrite app_nil_r].
         - apply (Hlocal n [ConsoleError]); [by repeat constructor|done]. }
    all: clear Hlocal; subst u d a qu qd count.
    1,2: unfold updateJob, bind, try_catch, set, reading, access, console_error,
           on_ledger, throw, ret; cbn -[queueChange invalidateCache];
         rewrite Hoff; cbn -[queueChange invalidateCache];
         rewrite queueChange_run; cbn -[invalidateCache];
         destruct (syncManager_queueChange (Update id updates) (world app))
           as [[e|] w1]; cbn -[invalidateCache];
         first [done | by rewrite <- app_assoc].
    1,2: unfold deleteJob, bind, try_catch, set, reading, access, console_error,
           on_ledger, throw, ret; cbn -[queueChange invalidateCache];
         rewrite Hoff; cbn -[queueChange invalidateCache];
         rewrite queueChange_run; cbn -[invalidateCache];
         destruct (syncManager_queueChange (Delete id) (world app))
           as [[e|] w1]; cbn -[invalidateCache];
         first [done | by rewrite <- app_assoc]. }
  clear Hlocal. subst u d a qu qd count.
  unfold addJob, bind, try_catch, set, reading, access, console_error,
    on_ledger, throw, ret.
  cbn -[invalidateCache mapM forM queueChange temp_job]. rewrite Hoff.
  cbn -[invalidateCache mapM forM queueChange temp_job].
  destruct job as [j|js]; cbn -[invalidateCache mapM forM queueChange temp_job].
  - destruct (temp_job_run j
                (mkApp (mkState (jobs (state app)) true None)
                       (fetchCache app) (world app) (trace app)))
      as (tid & ts & w1 & Ht).
    rewrite Ht. cbn -[invalidateCache queueChange].
    rewrite queueChange_run. cbn -[invalidateCache].
    destruct (syncManager_queueChange (Create (with_id j tid ts)) w1)
      as [[e|] w2]; cbn -[invalidateCache].
    + exists 1%nat. split; [lia|]. right.
      split; [done|]. split; [lia|]. by rewrite <- app_assoc.
    + exists 1%nat. split; [lia|]. left.
      split; [by eexists|]. split; done.
  - destruct (mapM_temp_job js
                (mkApp (mkState (jobs (state app)) true None)
                       (fetchCache app) (world app) (trace app)))
      as (temps & w1 & Hm & Hall).
    apply Forall2_length in Hall.
    rewrite Hm. cbn -[invalidateCache forM queueChange].
    pose proof (forM_queue_count temps
                  (mkApp (mkState (jobs (state app)) true None)
                         (fetchCache app) w1 (trace app)))
      as (n & Hn & Htr & Hres).
    destruct (forM temps (fun j => queueChange (Create j)) _)
      as [[[]|e] app3]; cbn -[invalidateCache] in *; rewrite Htr;
      exists n; (split; [lia|]).
    + left. split; [by eexists|]. split; [lia|done].
    + right. split; [done|]. split; [done|]. by rewrite <- app_assoc.
Qed.

Lemma patch_jobs_absent (id : string) (updates : Patch) (js : list Job) :
  Forall (fun j => job_id j <> id) js ->
  patch_jobs job_id spread id updates js = js.
Proof.
  induction 1 as [|j js Hj _ IH]; [done|].
  unfold patch_jobs in *. cbn [map]. rewrite IH.
  destruct (JS.seq (job_id j) id) eqn:E; [|done].
  by apply seq_true in E.
Qed.

Lemma drop_job_absent (id : string) (js : list Job) :
  Forall (fun j => job_id j <> id) js -> drop_job job_id id js = js.
Proof.
  induction 1 as [|j js Hj _ IH]; [done|].
  unfold drop_job in *. cbn [List.filter]. rewrite IH.
  destruct (JS.seq (job_id j) id) eqn:E; [|done].
  by apply seq_true in E.
Qed.

(** X28.  What the two list updates do to the rows: [updateJob]'s patch
    keeps the number and the order of the rows and rewrites only rows whose
    id is the given one; [deleteJob]'s filter keeps exactly the rows with
    another id, in order; and for an id that no row carries both leave the
    collection as it is. *)
Theorem X28_rows_addressed_by_id (id : string) (updates : Patch)
    (js : list Job) :
  length (patch_jobs job_id spread id updates js) = length js /\
  (forall (i : nat) j, js !! i = Some j -> job_id j <> id ->
     patch_jobs job_id spread id updates js !! i = Some j) /\
  (forall j, In j (drop_job job_id id js) <-> In j js /\ job_id j <> id) /\
  drop_job job_id id js `sublist_of` js /\
  (Forall (fun j => job_id j <> id) js ->
   patch_jobs job_id spread id updates js = js /\
   drop_job job_id id js = js).
Proof.
  split; [apply length_map|]. split; [|split; [|split]].
  - intros i j Hi Hne. unfold patch_jobs. rewrite list_lookup_fmap, Hi.
    cbn. destruct (JS.seq (job_id j) id) eqn:E; [|done].
    by apply seq_true in E.
  - intros j. unfold drop_job. rewrite filter_In. split.
    + intros [Hin Hb]. split; [done|]. intros Heq.
      apply seq_true in Heq. rewrite Heq in Hb. discriminate.
    + intros [Hin Hne]. split; [done|].
      destruct (JS.seq (job_id j) id) eqn:E; [|done].
      by apply seq_true in E.
  - unfold drop_job. induction js as [|j l IH]; [constructor|].
    cbn [List.filter]. destruct (negb _); by constructor.
  - intros Habs. split; [by apply patch_jobs_absent|by apply drop_job_absent].
Qed.

(** X29.  Offline, with a sync queue that accepts every change, adding an
    array of [n] records yields [n] temporary jobs, one per record and in
    the same order, each the record completed with a generated id and a
    creation time; it queues [n] changes, puts the temporary jobs in front
    of the collection and drops the ledger entry for 'jobs'. *)
Theorem X29_offline_bulk_add (app : App Job W) (js : list NewJob) :
  onLine (world app) = false ->
  (forall c w, (syncManager_queueChange c w).1 = None) ->
  let r := addJob with_id (inr js) app in
  exists temps,
    r.1 = Normal (Some temps) /\
    Forall2 (fun j t => exists id created_at, t = with_id j id created_at)
            js temps /\
    state r.2 = mkState (temps ++ jobs (state app)) false None /\
    trace r.2 = trace app ++ replicate (length js) SyncQueue /\
    fetchCache r.2 !! STORE_KEY = None.
Proof.
  intros Hoff Hacc r. subst r.
  unfold addJob, bind, try_catch, set, reading, access, console_error,
    on_ledger, throw, ret.
  cbn -[invalidateCache mapM forM queueChange temp_job]. rewrite Hoff.
  cbn -[invalidateCache mapM forM queueChange temp_job].
  destruct (mapM_temp_job js
              (mkApp (mkState (jobs (state app)) true None)
                     (fetchCache app) (world app) (trace app)))
    as (temps & w1 & Hm & Hall).
  rewrite Hm. cbn -[invalidateCache forM queueChange].
  assert (Hok : forall l a,
            (forM l (fun j => queueChange (Create j)) a).1 = Normal tt).
  { induction l as [|t l IH]; intros a0; [done|].
    rewrite forM_queue_cons. cbn zeta.
    rewrite (Hacc (Create t) (world a0)). apply IH. }
  pose proof (forM_queue temps
                (mkApp (mkState (jobs (state app)) true None)
                       (fetchCache app) w1 (trace app)))
    as (Hs & Hc & n & _ & Htr & Hn).
  specialize (Hok temps (mkApp (mkState (jobs (state app)) true None)
                               (fetchCache app) w1 (trace app))).
  destruct (forM temps (fun j => queueChange (Create j)) _)
    as [[[]|e] app3]; cbn -[invalidateCache] in *; [|discriminate Hok].
  exists temps. rewrite Hs, Hc, Htr, (Hn eq_refl). cbn -[invalidateCache].
  split; [done|]. split; [done|]. split; [done|].
  split; [by rewrite (Forall2_length _ _ _ Hall)|].
  apply (invalidated_then_fetch _ 0).
Qed.

End MutationExtras.

Section StoreExtrasRuns.
Import OptimizedFetch ErrorHandler JobStore.

(** X23, a first fetch against the healthy backend: the row arrives, the
    mirror is written, the entry is stamped. *)
Lemma X23_fetch_success_witness :
  let r := fetchJobs (col := backend_collaborators) false healthy_app in
  state r.2
  = mkState [CustomerStage.mkJob "j1" "c1" "Replace water heater" "scheduled"]
            false None /\
  fetchCache r.2 !! STORE_KEY = Some (mkEntry 1700000000000 false) /\
  trace r.2 = [MirrorLoad; NetSelect; MirrorSave].
Proof.
  exact (X23_fetch_success (col := backend_collaborators) healthy_app false
           (Some [CustomerStage.mkJob "j1" "c1" "Replace water heater"
                                      "scheduled"])
           eq_refl eq_refl).
Defined.

(** X24, a first fetch against the backend that rejects every call: the
    mirror's row is shown with the degraded-mode message. *)
Lemma X24_fetch_failure_fallback_witness :
  let r := fetchJobs (col := backend_collaborators) false cold_failing_app in
  r.1 = Normal tt /\
  state r.2
  = mkState [CustomerStage.mkJob "j1" "c1" "Replace water heater" "scheduled"]
      false
      (Some "Using cached job data. Some information may not be up to date."%string) /\
  fetchCache r.2 !! STORE_KEY = Some (mkEntry 1700000000000 false) /\
  trace r.2 = [MirrorLoad; NetSelect; ConsoleError; MirrorLoad].
Proof.
  exact (X24_fetch_failure_fallback (col := backend_collaborators)
           cold_failing_app false fk_violation eq_refl eq_refl).
Defined.

(** X27, offline: marking job j1 completed queues one change and touches
    nothing else. *)
Lemma X27_offline_mutations_stay_local_witness :
  let u := updateJob (col := backend_collaborators) row_id row_spread
             "j1" "completed"%string offline_app in
  u.1 = Normal tt /\ trace u.2 = [SyncQueue].
Proof.
  destruct (X27_offline_mutations_stay_local row_id row_spread row_with_id
              (col := backend_collaborators) offline_app "j1"
              "completed"%string
              (inl (CustomerStage.mkJob EmptyString "c1" "Fix leak" "scheduled"))
              eq_refl) as (H1 & H2 & _).
  split; [exact H1|exact H2].
Defined.

(** X29, offline: two records added at once. *)
Lemma X29_offline_bulk_add_witness :
  let r := addJob (col := backend_collaborators) row_with_id
             (inr [ CustomerStage.mkJob EmptyString "c1" "Fix leak" "scheduled";
                    CustomerStage.mkJob EmptyString "c2" "Paint fence" "scheduled" ])
             offline_app in
  trace r.2 = [SyncQueue; SyncQueue] /\
  fetchCache r.2 !! STORE_KEY = None.
Proof.
  destruct (X29_offline_bulk_add row_with_id (col := backend_collaborators)
              offline_app
              [ CustomerStage.mkJob EmptyString "c1" "Fix leak" "scheduled";
                CustomerStage.mkJob EmptyString "c2" "Paint fence" "scheduled" ]
              eq_refl ltac:(reflexivity))
    as (temps & _ & _ & _ & Htr & Hc).
  split; [exact Htr|exact Hc].
Defined.

End StoreExtrasRuns.
